(** * youtube-upcoming.js: the upcoming-live-streams widget

    A shallow embedding of [src/youtube-upcoming.js] and the properties of
    its freshness filter, its ordering policy, its time-bounded cache and
    its fetch routine.  The file holds the script twice; the line numbers
    below are those of the first script (lines 16-238).  The second
    (lines 338-547) keeps the raw item in the record for the thumbnail and
    has the same configuration, cache, filter, comparator and fetch flow.

    Layout:
    - [Js]: the few JavaScript primitives the widget relies on (numbers,
      truthiness, [parseInt], [Math.min], [Math.max], [Array.prototype.sort]);
    - configuration read from the mount element;
    - event records, normalisation, the filter predicate, the comparator;
    - the page state (storage, grid, status line, network log) and the
      routines that run on it: [readCache], [writeCache], [renderGrid],
      [loadFromCache], [fetchUpcoming];
    - the theorems. *)

From Stdlib Require Import ZArith List String Ascii Lia Sorted Permutation.
From stdpp Require Import gmap strings list pretty.

Open Scope string_scope.
Open Scope Z_scope.

(** ** JavaScript primitives *)

Module Js.

(** A JavaScript number, restricted to the values the widget can produce:
  integers, the two infinities and NaN.  [Fin z] stands for the double
  nearest to [z]; time values (at most 8.64e15 in magnitude) and the
  sums and differences formed from them are below 2^53, where double
  arithmetic on integers is exact. *)
Inductive num : Set :=
| Fin (z : Z)
| PInf
| NInf
| NaN.

Definition num_eq_dec (a b : num) : {a = b} + {a <> b}.
Proof. decide equality; apply Z.eq_dec. Defined.

(** [a + b] *)
Definition add (a b : num) : num :=
match a, b with
| NaN, _ | _, NaN => NaN
| Fin x, Fin y => Fin (x + y)
| PInf, NInf | NInf, PInf => NaN
| PInf, _ | _, PInf => PInf
| NInf, _ | _, NInf => NInf
end.

(** [-a] *)
Definition neg (a : num) : num :=
match a with
| Fin x => Fin (- x)
| PInf => NInf
| NInf => PInf
| NaN => NaN
end.

(** [a - b] *)
Definition sub (a b : num) : num := add a (neg b).

(** [a * b] *)
Definition mul (a b : num) : num :=
match a, b with
| NaN, _ | _, NaN => NaN
| Fin x, Fin y => Fin (x * y)
| Fin x, PInf | PInf, Fin x =>
    if x =? 0 then NaN else if 0 <? x then PInf else NInf
| Fin x, NInf | NInf, Fin x =>
    if x =? 0 then NaN else if 0 <? x then NInf else PInf
| PInf, PInf | NInf, NInf => PInf
| PInf, NInf | NInf, PInf => NInf
end.

(** [a < b]; false as soon as one side is NaN *)
Definition lt (a b : num) : bool :=
match a, b with
| NaN, _ | _, NaN => false
| Fin x, Fin y => x <? y
| NInf, NInf | PInf, _ | _, NInf => false
| NInf, _ | _, PInf => true
end.

(** [a > b] *)
Definition gt (a b : num) : bool := lt b a.

(** [a <= b]; false as soon as one side is NaN *)
Definition le (a b : num) : bool :=
match a, b with
| NaN, _ | _, NaN => false
| Fin x, Fin y => x <=? y
| NInf, _ | _, PInf => true
| PInf, _ | _, NInf => false
end.

(** [Math.min(a, b)]: NaN if either argument is NaN *)
Definition Math_min (a b : num) : num :=
match a, b with
| NaN, _ | _, NaN => NaN
| _, _ => if lt a b then a else b
end.

(** [Math.max(a, b)]: NaN if either argument is NaN *)
Definition Math_max (a b : num) : num :=
match a, b with
| NaN, _ | _, NaN => NaN
| _, _ => if lt a b then b else a
end.

(** [String(n)], as [URLSearchParams.set] applies it to a number (the
    decimal digits of an integer; JavaScript switches to the exponent form
    from 1e21 on). *)
Definition to_string (n : num) : string :=
match n with
| Fin z => pretty z
| PInf => "Infinity"
| NInf => "-Infinity"
| NaN => "NaN"
end.

(** Truthiness of a string: only the empty string is falsy. *)
Definition truthy_string (s : string) : bool :=
match s with
| EmptyString => false
| String _ _ => true
end.

(** Truthiness of a value that is a string, [null] or [undefined]
  ([None] stands for [null] and for [undefined]). *)
Definition truthy (v : option string) : bool :=
match v with
| Some s => truthy_string s
| None => false
end.

(** [v || d] for a string default [d] *)
Definition or_else (v : option string) (d : string) : string :=
match v with
| Some s => if truthy_string s then s else d
| None => d
end.

(** [v || null] *)
Definition or_null (v : option string) : option string :=
match v with
| Some s => if truthy_string s then Some s else None
| None => None
end.

(** White space skipped by [parseInt] (the ASCII part of StrWhiteSpaceChar:
  TAB, LF, VT, FF, CR, SP). *)
Definition is_space (c : ascii) : bool :=
let n := nat_of_ascii c in
((9 <=? n) && (n <=? 13) || (n =? 32))%nat.

Definition digit_of (c : ascii) : option Z :=
let n := Z.of_nat (nat_of_ascii c) in
if (48 <=? n) && (n <=? 57) then Some (n - 48) else None.

Fixpoint trim_start (s : string) : string :=
match s with
| String c s' => if is_space c then trim_start s' else s
| EmptyString => s
end.

(** The longest prefix of decimal digits of [s] read as an integer, with
  [acc] the value of the digits already read; [None] when [seen] is false
  and [s] starts with no digit. *)
Fixpoint read_digits (seen : bool) (acc : Z) (s : string) : option Z :=
match s with
| String c s' =>
    match digit_of c with
    | Some d => read_digits true (10 * acc + d) s'
    | None => if seen then Some acc else None
    end
| EmptyString => if seen then Some acc else None
end.

(** [parseInt(s, 10)]: skip leading white space (the ASCII one), read an
  optional sign, then the longest run of decimal digits; NaN when there
  is no digit.  The value is the exact integer: a double rounds it
  beyond 2^53. *)
Definition parseInt (s : string) : num :=
let s1 := trim_start s in
let '(sign, s2) :=
  match s1 with
  | String "-" r => (-1, r)
  | String "+" r => (1, r)
  | _ => (1, s1)
  end in
match read_digits false 0 s2 with
| Some m => Fin (sign * m)
| None => NaN
end.

(** *** [Array.prototype.sort]

  The comparator's result goes through SortCompare, which reads NaN as
  +0.  For a consistent comparator ECMAScript fixes the result: the
  sorted permutation that keeps elements comparing equal in their
  original order.  The stable insertion sort below computes it
  ([sort_unique] states that it is the only such list); for an
  inconsistent comparator the standard leaves the order to the engine,
  and the list computed here need not be the engine's: the properties
  that depend on the order are stated for records on which the
  comparator is consistent. *)
Section Sort.
Context {A : Type} (comparator : A -> A -> num).

Definition SortCompare (x y : A) : num :=
match comparator x y with
| NaN => Fin 0
| v => v
end.

Fixpoint insert (x : A) (l : list A) : list A :=
match l with
| [] => [x]
| y :: l' =>
  if gt (SortCompare x y) (Fin 0) then y :: insert x l'
  else x :: l
end.

Fixpoint sort (l : list A) : list A :=
match l with
| [] => []
| x :: l' => insert x (sort l')
end.
End Sort.

End Js.

#[global] Instance num_eq_decision : EqDecision Js.num := Js.num_eq_dec.

(** ** Configuration inputs (source lines 20-26) *)

(** The attributes of the mount element, as [getAttribute] returns them:
    [None] for an attribute that is not there. *)
Record attributes : Set := {
  data_api_key : option string;
  data_channel_id : option string;
  data_max_results : option string;
  data_open_in : option string;
  data_timezone : option string;
  data_channel_handle : option string;
  data_hide_past_hours : option string
}.

(** [Math.min(parseInt(attr || '12', 10), 50)] *)
Definition MAX_RESULTS (a : attributes) : Js.num :=
  Js.Math_min (Js.parseInt (Js.or_else (data_max_results a) "12")) (Js.Fin 50).

(** [Math.max(0, parseInt(attr || '6', 10))] *)
Definition HIDE_PAST_HOURS (a : attributes) : Js.num :=
  Js.Math_max (Js.Fin 0) (Js.parseInt (Js.or_else (data_hide_past_hours a) "6")).

(** [attr || null] *)
Definition CHANNEL_HANDLE (a : attributes) : option string :=
  Js.or_null (data_channel_handle a).

(** [(attr || 'modal').toLowerCase()] is compared with ['newtab'] only when
    a video is opened; the attribute is kept as read. *)
Record config : Set := {
  API_KEY : string;
  CHANNEL_ID : string;
  max_results : Js.num;
  channel_handle : option string;
  hide_past_hours : Js.num
}.

(** ** The details endpoint's items and the event records built from them *)

Record thumbnail : Set := { url : option string }.

Record thumbnails : Set := {
  th_maxres : option thumbnail;
  th_standard : option thumbnail;
  th_high : option thumbnail;
  th_medium : option thumbnail;
  th_default : option thumbnail
}.

Record snippet : Set := {
  sn_title : option string;
  sn_description : option string;
  sn_channelTitle : option string;
  sn_thumbnails : option thumbnails
}.

Record liveStreamingDetails : Set := {
  scheduledStartTime : option string;
  actualStartTime : option string;
  actualEndTime : option string
}.

(** An item of [videosData.items]; a field that the response leaves out is
    [None]. *)
Record video_item : Set := {
  vi_id : option string;
  vi_snippet : option snippet;
  vi_liveStreamingDetails : option liveStreamingDetails
}.

(** The record built at source lines 196-205. *)
Record event : Set := {
  id : option string;
  title : string;
  desc : string;
  thumb : string;
  scheduled : option string;
  actualStart : option string;
  actualEnd : option string;
  channelTitle : string
}.

(** [a || b] on objects: an object is truthy, so the first one present. *)
Definition or_obj {A : Type} (a b : option A) : option A :=
  match a with
  | Some _ => a
  | None => b
  end.

(** [thumbUrl] (source lines 72-75) *)
Definition thumbUrl (item : video_item) : string :=
  let t := match vi_snippet item with
           | Some sn => sn_thumbnails sn
           | None => None
           end in
  let pick := match t with
              | Some t =>
                  or_obj (th_maxres t) (or_obj (th_standard t)
                    (or_obj (th_high t) (or_obj (th_medium t) (th_default t))))
              | None => None
              end in
  Js.or_else (match pick with Some th => url th | None => None end) "".

(** [v?.snippet?.f] *)
Definition snippet_field (f : snippet -> option string) (v : video_item)
  : option string :=
  match vi_snippet v with
  | Some sn => f sn
  | None => None
  end.

(** [lsd?.f] where [lsd = v?.liveStreamingDetails || {}] *)
Definition lsd_field (f : liveStreamingDetails -> option string)
  (v : video_item) : option string :=
  match vi_liveStreamingDetails v with
  | Some lsd => f lsd
  | None => None
  end.

(** The callback of [.map] at source lines 191-206. *)
Definition normalize (v : video_item) : event :=
  let scheduled := Js.or_null (lsd_field scheduledStartTime v) in
  let actualStart := Js.or_null (lsd_field actualStartTime v) in
  let actualEnd := Js.or_null (lsd_field actualEndTime v) in
  {| id := vi_id v;
     title := Js.or_else (snippet_field sn_title v) "Untitled";
     desc := Js.or_else (snippet_field sn_description v) "";
     thumb := thumbUrl v;
     scheduled := scheduled;
     actualStart := actualStart;
     actualEnd := actualEnd;
     channelTitle := Js.or_else (snippet_field sn_channelTitle v) "" |}.

(** ** The freshness filter and the ordering (source lines 207-221)

    [Date_getTime iso] is [new Date(iso).getTime()]: the time value in
    milliseconds, [None] for an invalid date (NaN).  Which strings a
    JavaScript engine accepts beyond the ISO format is up to the engine, so
    the parser is a parameter. *)
Section Freshness.
Variable Date_getTime : string -> option Z.

(** [new Date(iso).getTime()] *)
Definition getTime (iso : string) : Js.num :=
  match Date_getTime iso with
  | Some t => Js.Fin t
  | None => Js.NaN
  end.

(** The predicate of [.filter]. *)
Definition fresh (now : Z) (hidePastMs : Js.num) (ev : event) : bool :=
  if Js.truthy (actualEnd ev) then false
  else
    match scheduled ev with
    | Some iso =>
        if Js.truthy_string iso then
          let schedMs := getTime iso in
          if negb (Js.truthy (actualStart ev))
             && Js.lt (Js.add schedMs hidePastMs) (Js.Fin now)
          then false
          else true
        else true
    | None => true
    end.

(** [a.scheduled ? new Date(a.scheduled).getTime() : Infinity] *)
Definition sortKey (a : event) : Js.num :=
  match scheduled a with
  | Some iso => if Js.truthy_string iso then getTime iso else Js.PInf
  | None => Js.PInf
  end.

(** The comparator of [.sort]. *)
Definition byScheduled (a b : event) : Js.num :=
  Js.sub (sortKey a) (sortKey b).

(** [.filter(...).sort(...)] applied to event records. *)
Definition freshSorted (now : Z) (hidePastMs : Js.num) (evs : list event)
  : list event :=
  Js.sort byScheduled (List.filter (fresh now hidePastMs) evs).

(** [HIDE_PAST_HOURS * 60 * 60 * 1000] *)
Definition hidePastMs (hours : Js.num) : Js.num :=
  Js.mul (Js.mul (Js.mul hours (Js.Fin 60)) (Js.Fin 60)) (Js.Fin 1000).

(** The value of [detailed] (source lines 191-221). *)
Definition detailed (now : Z) (hours : Js.num) (items : list video_item)
  : list event :=
  freshSorted now (hidePastMs hours) (map normalize items).
End Freshness.

(** *** ISO date-time strings

    The instance of the date parser used in the worked examples: the
    date-time format ECMAScript prescribes, in UTC
    ([YYYY-MM-DDTHH:mm:ssZ], optionally with [.sss], or the date alone).
    Every other string is left unparsed. *)
Module Iso.

Fixpoint read_fixed (n : nat) (acc : Z) (s : string) : option (Z * string) :=
  match n with
  | O => Some (acc, s)
  | S n' =>
      match s with
      | String c s' =>
          match Js.digit_of c with
          | Some d => read_fixed n' (10 * acc + d) s'
          | None => None
          end
      | EmptyString => None
      end
  end.

Definition expect (c : ascii) (s : string) : option string :=
  match s with
  | String c' s' => if Ascii.eqb c c' then Some s' else None
  | EmptyString => None
  end.

Definition is_leap (y : Z) : bool :=
  ((y mod 4 =? 0) && negb (y mod 100 =? 0)) || (y mod 400 =? 0).

Definition days_in_month (y m : Z) : Z :=
  if m =? 2 then (if is_leap y then 29 else 28)
  else if (m =? 4) || (m =? 6) || (m =? 9) || (m =? 11) then 30
  else 31.

(** Days from 1970-01-01 to the given civil date. *)
Definition days_from_civil (y m d : Z) : Z :=
  let y' := if m <=? 2 then y - 1 else y in
  let era := y' / 400 in
  let yoe := y' - era * 400 in
  let mp := (m + 9) mod 12 in
  let doy := (153 * mp + 2) / 5 + d - 1 in
  let doe := yoe * 365 + yoe / 4 - yoe / 100 + doy in
  era * 146097 + doe - 719468.

Definition read_time (s : string) : option Z :=
  match s with
  | EmptyString => Some 0
  | _ =>
      s ← expect "T" s;
      '(h, s) ← read_fixed 2 0 s;
      s ← expect ":" s;
      '(mi, s) ← read_fixed 2 0 s;
      s ← expect ":" s;
      '(sec, s) ← read_fixed 2 0 s;
      '(ms, s) ← match s with
                  | String "." s' => read_fixed 3 0 s'
                  | _ => Some (0, s)
                  end;
      match s with
      | "Z" =>
          if (h <=? 23) && (mi <=? 59) && (sec <=? 59)
          then Some (((h * 60 + mi) * 60 + sec) * 1000 + ms)
          else None
      | _ => None
      end
  end.

Definition getTime (s : string) : option Z :=
  '(y, s) ← read_fixed 4 0 s;
  s ← expect "-" s;
  '(m, s) ← read_fixed 2 0 s;
  s ← expect "-" s;
  '(d, s) ← read_fixed 2 0 s;
  t ← read_time s;
  if (1 <=? m) && (m <=? 12) && (1 <=? d) && (d <=? days_in_month y m)
  then Some (days_from_civil y m d * 86400000 + t)
  else None.

End Iso.

(** ** The page: storage, grid, status line, network *)

(** The value kept under a storage key: [{ ts, data }]. *)
Record cache_entry : Set := { ts : Z; data : list event }.

(** The text stored under a key of [localStorage], up to what line 92 of
    the source ([JSON.parse] followed by the destructuring) makes of it:
    the text [JSON.stringify] gives for an entry, which [JSON.parse] reads
    back as that entry, or a text on which line 92 throws (the empty text,
    which line 91 already rejects, is one of them).  A text that parses to
    something else than an entry with a list of records has no value
    here: on such a text [readCache] returns what it finds, and
    [renderGrid] may throw out of [loadFromCache] (line 121).  The
    properties of the cache are about a storage that holds, under the
    key, nothing, an entry that [writeCache] wrote, or a text that does
    not parse. *)
Inductive stored : Set :=
| Json (e : cache_entry)
| Garbage.

(** [searchParams.set] *)
Fixpoint set_param (k v : string) (ps : list (string * string))
  : list (string * string) :=
  match ps with
  | [] => [(k, v)]
  | (k', v') :: ps' =>
      if String.eqb k k'
      then (k, v) :: List.filter (fun p => negb (String.eqb k (fst p))) ps'
      else (k', v') :: set_param k v ps'
  end.

Record URL : Set := { href : string; searchParams : list (string * string) }.

Definition new_URL (href : string) : URL :=
  {| href := href; searchParams := [] |}.

Definition searchParams_set (k v : string) (u : URL) : URL :=
  {| href := href u; searchParams := set_param k v (searchParams u) |}.

(** The search endpoint's answer. *)
Record search_id : Set := { videoId : option string }.
Record search_item : Set := { si_id : option search_id }.
Record searchData : Set := { sd_items : option (list search_item) }.

(** The details endpoint's answer. *)
Record videosData : Set := { vd_items : option (list video_item) }.

(** A response: [ok], [status], and the body as [json()] resolves it
    ([None] when [json()] rejects). *)
Record Response (B : Type) : Type := {
  ok : bool;
  http_status : Z;
  json : option B
}.
Arguments ok {B} _.
Arguments http_status {B} _.
Arguments json {B} _.

(** What the page cannot control: how the two endpoints answer a request
    ([None] when [fetch] rejects), how long a request takes, and whether
    [localStorage.setItem] accepts a value (it throws when the quota is
    exceeded). *)
Record environment : Type := {
  search_endpoint : URL -> option (Response searchData);
  videos_endpoint : URL -> option (Response videosData);
  elapsed : URL -> Z;
  storage_accepts : string -> cache_entry -> bool
}.

(** What was thrown inside [fetchUpcoming]. *)
Inductive exn : Set :=
| Error (message : string)
| FetchRejected
| BodyRejected.

(** A card of the grid (source lines 121-141): thumbnail, escaped title,
    the scheduled time it shows ([None] for 'Scheduled time TBA') and the
    video its click handlers open. *)
Record card : Set := {
  card_thumb : string;
  card_title : string;
  card_time : option string;
  card_video : option string
}.

(** The content of the grid element. *)
Inductive grid_html : Set :=
| Cards (cs : list card)
| CallToAction (liveUrl subscribeUrl : string)
| ErrorBox.

Record page : Type := {
  localStorage : gmap string stored;
  grid : grid_html;
  status : string;
  console : list exn;
  fetched : list URL;
  clock : Z
}.

(** Computations on the page that may throw. *)
Inductive outcome (A : Type) : Type :=
| Returned (a : A)
| Thrown (e : exn).
Arguments Returned {A} _.
Arguments Thrown {A} _.

Definition M (A : Type) : Type := page -> outcome A * page.

#[global] Instance M_ret : MRet M := fun A a w => (Returned a, w).
#[global] Instance M_bind : MBind M := fun A B f m w =>
  match m w with
  | (Returned a, w') => f a w'
  | (Thrown e, w') => (Thrown e, w')
  end.
#[global] Instance M_throw : MThrow exn M := fun A e w => (Thrown e, w).

(** [try { body } catch (err) { handler }] *)
Definition try_catch {A : Type} (body : M A) (handler : exn -> M A) : M A :=
  fun w =>
    match body w with
    | (Returned a, w') => (Returned a, w')
    | (Thrown e, w') => handler e w'
    end.

Definition modify (f : page -> page) : M unit := fun w => (Returned tt, f w).

Definition set_localStorage (m : gmap string stored) (w : page) : page :=
  {| localStorage := m; grid := grid w; status := status w;
     console := console w; fetched := fetched w; clock := clock w |}.

Definition set_grid (g : grid_html) (w : page) : page :=
  {| localStorage := localStorage w; grid := g; status := status w;
     console := console w; fetched := fetched w; clock := clock w |}.

Definition set_status (s : string) (w : page) : page :=
  {| localStorage := localStorage w; grid := grid w; status := s;
     console := console w; fetched := fetched w; clock := clock w |}.

Definition console_error (e : exn) (w : page) : page :=
  {| localStorage := localStorage w; grid := grid w; status := status w;
     console := console w ++ [e]; fetched := fetched w; clock := clock w |}.

(** A request leaves: it is logged and the clock moves on. *)
Definition sent (env : environment) (u : URL) (w : page) : page :=
  {| localStorage := localStorage w; grid := grid w; status := status w;
     console := console w; fetched := fetched w ++ [u];
     clock := clock w + elapsed env u |}.

(** The passing of time between two runs of the page's code. *)
Definition at_time (t : Z) (w : page) : page :=
  {| localStorage := localStorage w; grid := grid w; status := status w;
     console := console w; fetched := fetched w; clock := t |}.

(** ** The cache (source lines 85-99) *)

(** [`yt_upcoming_${CHANNEL_ID}`] *)
Definition CACHE_KEY (cfg : config) : string := "yt_upcoming_" ++ CHANNEL_ID cfg.

(** [5 * 60 * 1000]: five minutes *)
Definition CACHE_MS : Z := 5 * 60 * 1000.

(** [readCache]: [None] is [null]; [Date.now()] is the page's clock. *)
Definition readCache (cfg : config) (w : page) : option (list event) :=
  match localStorage w !! CACHE_KEY cfg with
  | None => None
  | Some Garbage => None
  | Some (Json e) =>
      if clock w - ts e >? CACHE_MS then None else Some (data e)
  end.

(** [writeCache]: an exception of [setItem] is swallowed and the storage
    stays as it was. *)
Definition writeCache (cfg : config) (env : environment) (data : list event)
  (w : page) : page :=
  let e := {| ts := clock w; data := data |} in
  if storage_accepts env (CACHE_KEY cfg) e
  then set_localStorage (<[CACHE_KEY cfg := Json e]> (localStorage w)) w
  else w.

(** ** Rendering (source lines 71, 101-152) *)

(** [escapeHtml]: the five characters ampersand (38), less-than (60),
    greater-than (62), double quote (34) and apostrophe (39) are replaced
    by their entities. *)
Fixpoint escapeHtml (str : string) : string :=
  match str with
  | EmptyString => EmptyString
  | String c str' =>
      let n := nat_of_ascii c in
      (if (n =? 38)%nat then "&amp;"
       else if (n =? 60)%nat then "&lt;"
       else if (n =? 62)%nat then "&gt;"
       else if (n =? 34)%nat then "&quot;"
       else if (n =? 39)%nat then "&#39;"
       else String c EmptyString) ++ escapeHtml str'
  end.

Definition card_of (v : event) : card :=
  {| card_thumb := thumb v;
     card_title := escapeHtml (title v);
     card_time := Js.or_null (scheduled v);
     card_video := id v |}.

(** The call to action shown when nothing is scheduled. *)
Definition call_to_action (cfg : config) : grid_html :=
  let liveUrl :=
    match channel_handle cfg with
    | Some h => "https://www.youtube.com/" ++ h ++ "/live"
    | None => "https://www.youtube.com/channel/" ++ CHANNEL_ID cfg ++ "/live"
    end in
  let subscribeUrl :=
    "https://www.youtube.com/"
    ++ match channel_handle cfg with
       | Some h => h
       | None => "channel/" ++ CHANNEL_ID cfg
       end
    ++ "?sub_confirmation=1" in
  CallToAction liveUrl subscribeUrl.

(** [renderGrid]: [!videos.length] holds of the empty array only. *)
Definition renderGrid (cfg : config) (videos : list event) (w : page) : page :=
  match videos with
  | [] => set_grid (call_to_action cfg) w
  | _ :: _ => set_grid (Cards (map card_of videos)) w
  end.

(** Truthiness of what [readCache] returns: [null] is falsy, an array is an
    object and therefore truthy, the empty array included. *)
Definition truthy_array {A : Type} (v : option (list A)) : bool :=
  match v with
  | Some _ => true
  | None => false
  end.

(** [loadFromCache] *)
Definition loadFromCache (cfg : config) (w : page) : bool * page :=
  let cached := readCache cfg w in
  if truthy_array cached then
    (true, set_status "Loaded from cache." (renderGrid cfg (default [] cached) w))
  else (false, w).

(** ** The fetch routine (source lines 155-237) *)

(** [await fetch(url.toString())] *)
Definition fetch {B : Type} (env : environment)
  (endpoint : URL -> option (Response B)) (u : URL) : M (Response B) :=
  fun w =>
    match endpoint u with
    | Some res => (Returned res, sent env u w)
    | None => (Thrown FetchRejected, sent env u w)
    end.

(** [await res.json()] *)
Definition res_json {B : Type} (res : Response B) : M B :=
  match json res with
  | Some body => mret body
  | None => mthrow BodyRejected
  end.

(** [.filter(Boolean)] on values that are strings or [undefined] *)
Fixpoint filter_Boolean (l : list (option string)) : list string :=
  match l with
  | [] => []
  | Some s :: l' =>
      if Js.truthy_string s then s :: filter_Boolean l' else filter_Boolean l'
  | None :: l' => filter_Boolean l'
  end.

(** [(searchData.items || []).map(i => i.id?.videoId).filter(Boolean)] *)
Definition ids_of (sd : searchData) : list string :=
  filter_Boolean
    (map (fun i => match si_id i with
                   | Some x => videoId x
                   | None => None
                   end)
         (default [] (sd_items sd))).

Definition searchURL (cfg : config) : URL :=
  searchParams_set "maxResults" (Js.to_string (max_results cfg))
    (searchParams_set "order" "date"
      (searchParams_set "eventType" "upcoming"
        (searchParams_set "type" "video"
          (searchParams_set "part" "snippet"
            (searchParams_set "channelId" (CHANNEL_ID cfg)
              (searchParams_set "key" (API_KEY cfg)
                (new_URL "https://www.googleapis.com/youtube/v3/search"))))))).

Definition videosURL (cfg : config) (ids : list string) : URL :=
  searchParams_set "part" "snippet,liveStreamingDetails"
    (searchParams_set "id" (String.concat "," ids)
      (searchParams_set "key" (API_KEY cfg)
        (new_URL "https://www.googleapis.com/youtube/v3/videos"))).

Definition Date_now : M Z := fun w => (Returned (clock w), w).

Section Fetch.
Variable Date_getTime : string -> option Z.
Variable cfg : config.
Variable env : environment.

(** [fetchUpcoming] *)
Definition fetchUpcoming : M unit :=
  modify (set_status "Loading upcoming streams…");;
  try_catch
    (searchRes ← fetch env (search_endpoint env) (searchURL cfg);
     if negb (ok searchRes)
     then mthrow (Error ("YouTube API (search) " ++ pretty (http_status searchRes)))
     else
       searchData ← res_json searchRes;
       let ids := ids_of searchData in
       match ids with
       | [] =>
           modify (renderGrid cfg []);;
           modify (set_status "No upcoming live streams scheduled.");;
           modify (writeCache cfg env [])
       | _ :: _ =>
           videosRes ← fetch env (videos_endpoint env) (videosURL cfg ids);
           if negb (ok videosRes)
           then mthrow (Error ("YouTube API (videos) " ++ pretty (http_status videosRes)))
           else
             videosData ← res_json videosRes;
             now ← Date_now;
             let detailed :=
               detailed Date_getTime now (hide_past_hours cfg)
                 (default [] (vd_items videosData)) in
             modify (renderGrid cfg detailed);;
             modify (writeCache cfg env detailed);;
             modify (set_status "")
       end)
    (fun err =>
       modify (console_error err);;
       modify (set_status "Error loading upcoming streams.");;
       modify (set_grid ErrorBox)).

(** Source lines 234-237: the cache first, then the refresh; when the
    refresh has settled the status line is cleared if the cache was
    shown. *)
Definition refresh : M unit :=
  fun w =>
    let '(hadCache, w1) := loadFromCache cfg w in
    (fetchUpcoming;;
     if hadCache then modify (set_status "") else mret tt) w1.
End Fetch.

(** Source lines 20-31: the configuration, or [None] when the key or the
    channel is missing (the widget then shows an error and stops). *)
Definition configure (a : attributes) : option config :=
  if negb (Js.truthy (data_api_key a)) || negb (Js.truthy (data_channel_id a))
  then None
  else Some {| API_KEY := default "" (data_api_key a);
               CHANNEL_ID := default "" (data_channel_id a);
               max_results := MAX_RESULTS a;
               channel_handle := CHANNEL_HANDLE a;
               hide_past_hours := HIDE_PAST_HOURS a |}.

(** Source lines 33-41: the empty shell. *)
Definition shell (w : page) : page := set_status "" (set_grid (Cards []) w).

(** The whole script on a page whose mount element carries [a]. *)
Definition widget (Date_getTime : string -> option Z) (env : environment)
  (a : attributes) (w : page) : option (outcome unit * page) :=
  match configure a with
  | Some cfg => Some (refresh Date_getTime cfg env (shell w))
  | None => None
  end.

(** ** Vocabulary of the statements *)

(** A time field as line 193-195 leave it: [null] or a non-empty string. *)
Definition null_or_set (v : option string) : Prop :=
  match v with
  | Some s => s <> ""
  | None => True
  end.

Definition normalized (ev : event) : Prop :=
  null_or_set (scheduled ev) /\ null_or_set (actualStart ev)
  /\ null_or_set (actualEnd ev).

(** The record [ev] with another scheduled start. *)
Definition with_scheduled (iso : string) (ev : event) : event :=
  {| id := id ev; title := title ev; desc := desc ev; thumb := thumb ev;
     scheduled := Some iso;
     actualStart := actualStart ev; actualEnd := actualEnd ev;
     channelTitle := channelTitle ev |}.

(** One hour, in milliseconds. *)
Definition hour : Z := 60 * 60 * 1000.

Section Vocabulary.
Variable Date_getTime : string -> option Z.

(** The record has a scheduled start ([ev.scheduled] is truthy). *)
Definition has_start (ev : event) : bool := Js.truthy (scheduled ev).

(** The scheduled start as a time value, when the record has one and it
    is a valid date. *)
Definition scheduledStart (ev : event) : option Z :=
  match scheduled ev with
  | Some iso => if Js.truthy_string iso then Date_getTime iso else None
  | None => None
  end.

(** The scheduled start, when there is one, is a timestamp: the date
    parser reads it. *)
Definition dated (ev : event) : Prop :=
  has_start ev = true -> is_Some (scheduledStart ev).
End Vocabulary.

(** A failed remote call, with what is thrown for it (source lines 167-169
    and 183-185). *)
Inductive remote_failure (cfg : config) (env : environment) : exn -> Prop :=
| search_rejected :
    search_endpoint env (searchURL cfg) = None ->
    remote_failure cfg env FetchRejected
| search_status res :
    search_endpoint env (searchURL cfg) = Some res ->
    ok res = false ->
    remote_failure cfg env
      (Error ("YouTube API (search) " ++ pretty (http_status res)))
| search_body res :
    search_endpoint env (searchURL cfg) = Some res ->
    ok res = true -> json res = None ->
    remote_failure cfg env BodyRejected
| videos_rejected res sd :
    search_endpoint env (searchURL cfg) = Some res ->
    ok res = true -> json res = Some sd -> ids_of sd <> [] ->
    videos_endpoint env (videosURL cfg (ids_of sd)) = None ->
    remote_failure cfg env FetchRejected
| videos_status res sd res' :
    search_endpoint env (searchURL cfg) = Some res ->
    ok res = true -> json res = Some sd -> ids_of sd <> [] ->
    videos_endpoint env (videosURL cfg (ids_of sd)) = Some res' ->
    ok res' = false ->
    remote_failure cfg env
      (Error ("YouTube API (videos) " ++ pretty (http_status res')))
| videos_body res sd res' :
    search_endpoint env (searchURL cfg) = Some res ->
    ok res = true -> json res = Some sd -> ids_of sd <> [] ->
    videos_endpoint env (videosURL cfg (ids_of sd)) = Some res' ->
    ok res' = true -> json res' = None ->
    remote_failure cfg env BodyRejected.

(** A sort key that is neither NaN nor minus infinity: a time value or
    plus infinity. *)
Definition ordinary (k : Js.num) : Prop := k <> Js.NaN /\ k <> Js.NInf.

(** ** Inputs of the worked examples *)

(** The attributes of a mount element whose [data-max-results] is a word. *)
Definition attributes_all : attributes :=
  {| data_api_key := Some "KEY"; data_channel_id := Some "UC123";
     data_max_results := Some "all"; data_open_in := None;
     data_timezone := None; data_channel_handle := None;
     data_hide_past_hours := None |}.

(** Four events of a channel: two scheduled, one of them first in the
    feed but later in time, one without a time, one that has ended. *)
Definition ev_second : event :=
  {| id := Some "v2"; title := "Evening service"; desc := ""; thumb := "";
     scheduled := Some "2025-01-02T10:00:00Z";
     actualStart := None; actualEnd := None; channelTitle := "VUMC" |}.

Definition ev_first : event :=
  {| id := Some "v1"; title := "Morning service"; desc := ""; thumb := "";
     scheduled := Some "2025-01-01T10:00:00Z";
     actualStart := None; actualEnd := None; channelTitle := "VUMC" |}.

Definition ev_tba : event :=
  {| id := Some "v3"; title := "Concert"; desc := ""; thumb := "";
     scheduled := None;
     actualStart := None; actualEnd := None; channelTitle := "VUMC" |}.

Definition ev_ended : event :=
  {| id := Some "v0"; title := "Last week"; desc := ""; thumb := "";
     scheduled := Some "2024-12-25T10:00:00Z";
     actualStart := Some "2024-12-25T10:00:03Z";
     actualEnd := Some "2024-12-25T11:02:00Z"; channelTitle := "VUMC" |}.

(** An item of the details endpoint without [liveStreamingDetails]. *)
Definition item_plain : video_item :=
  {| vi_id := Some "v4";
     vi_snippet := Some {| sn_title := Some "Placeholder";
                           sn_description := None; sn_channelTitle := None;
                           sn_thumbnails := None |};
     vi_liveStreamingDetails := None |}.

Definition item_first : video_item :=
  {| vi_id := Some "v1"; vi_snippet := None;
     vi_liveStreamingDetails :=
       Some {| scheduledStartTime := Some "2025-01-01T10:00:00Z";
               actualStartTime := None; actualEndTime := None |} |}.

(** 2025-01-01T00:00:00Z *)
Definition new_year : Z := 1735689600000.

Definition ev_tba2 : event :=
  {| id := Some "v5"; title := "Youth night"; desc := ""; thumb := "";
     scheduled := None;
     actualStart := None; actualEnd := None; channelTitle := "VUMC" |}.

(** The details of a feed, in the order the endpoint lists them. *)
Definition feed : list event := [ev_second; ev_tba; ev_ended; ev_first; ev_tba2].

Definition cfg0 : config :=
  {| API_KEY := "KEY"; CHANNEL_ID := "UC123"; max_results := Js.Fin 12;
     channel_handle := Some "@vumc"; hide_past_hours := Js.Fin 6 |}.

(** A page just after the shell is built, with nothing in the storage. *)
Definition page0 : page :=
  {| localStorage := ∅; grid := Cards []; status := ""; console := [];
     fetched := []; clock := new_year |}.

(** A page whose storage holds a one-minute-old entry for [cfg0]. *)
Definition page_cached : page :=
  {| localStorage :=
       {[ CACHE_KEY cfg0 := Json {| ts := new_year - 60000; data := [ev_first] |} ]};
     grid := Cards []; status := ""; console := [];
     fetched := []; clock := new_year |}.

(** A page whose storage holds a one-minute-old entry with no event. *)
Definition page_cached_empty : page :=
  {| localStorage :=
       {[ CACHE_KEY cfg0 := Json {| ts := new_year - 60000; data := [] |} ]};
     grid := Cards []; status := ""; console := [];
     fetched := []; clock := new_year |}.

Definition ok_response {B : Type} (body : B) : Response B :=
  {| ok := true; http_status := 200; json := Some body |}.

(** The search finds nothing. *)
Definition env_nothing : environment :=
  {| search_endpoint := fun _ => Some (ok_response {| sd_items := Some [] |});
     videos_endpoint := fun _ => None;
     elapsed := fun _ => 120;
     storage_accepts := fun _ _ => true |}.

(** The search finds one video; the details endpoint answers 403. *)
Definition env_forbidden : environment :=
  {| search_endpoint := fun _ =>
       Some (ok_response
               {| sd_items := Some [ {| si_id := Some {| videoId := Some "v1" |} |} ] |});
     videos_endpoint := fun _ =>
       Some {| ok := false; http_status := 403; json := None |};
     elapsed := fun _ => 120;
     storage_accepts := fun _ _ => true |}.

(** The search finds two videos and the details endpoint describes them. *)
Definition env_two : environment :=
  {| search_endpoint := fun _ =>
       Some (ok_response
               {| sd_items := Some [ {| si_id := Some {| videoId := Some "v4" |} |};
                                     {| si_id := Some {| videoId := Some "v1" |} |} ] |});
     videos_endpoint := fun _ =>
       Some (ok_response {| vd_items := Some [item_plain; item_first] |});
     elapsed := fun _ => 120;
     storage_accepts := fun _ _ => true |}.

Definition item_second : video_item :=
  {| vi_id := Some "v2"; vi_snippet := None;
     vi_liveStreamingDetails :=
       Some {| scheduledStartTime := Some "2025-01-02T10:00:00Z";
               actualStartTime := None; actualEndTime := None |} |}.

Definition item_ended : video_item :=
  {| vi_id := Some "v0"; vi_snippet := None;
     vi_liveStreamingDetails :=
       Some {| scheduledStartTime := Some "2024-12-25T10:00:00Z";
               actualStartTime := Some "2024-12-25T10:00:03Z";
               actualEndTime := Some "2024-12-25T11:02:00Z" |} |}.

(** The search finds three videos, one of which has ended. *)
Definition env_three : environment :=
  {| search_endpoint := fun _ =>
       Some (ok_response
               {| sd_items := Some [ {| si_id := Some {| videoId := Some "v2" |} |};
                                     {| si_id := Some {| videoId := Some "v0" |} |};
                                     {| si_id := Some {| videoId := Some "v1" |} |} ] |});
     videos_endpoint := fun _ =>
       Some (ok_response {| vd_items := Some [item_second; item_ended; item_first] |});
     elapsed := fun _ => 120;
     storage_accepts := fun _ _ => true |}.

(** Unfolds a run of [fetchUpcoming] down to the answers of the endpoints. *)
Ltac run_fetch :=
  unfold fetchUpcoming, try_catch, fetch, res_json, modify, Date_now;
  unfold mbind, mret, mthrow, M_bind, M_ret, M_throw.

(** ** Opening and closing the player (source lines 23, 43-68) *)




(** The element [#ytModal]: its class list, its [aria-hidden] attribute, and
    whether it holds an element of class [close]. *)
Record modal_element : Type := {
  classList : gset string;
  aria_hidden : option string;
  has_close : bool
}.

(** The element [#ytPlayer]: its [src] attribute. *)
Record player_element : Set := { src : option string }.

(** The part of the document the player code works on; an element that the
    page does not have is [None].  [opened] lists the calls of
    [window.open]: URL, target, features. *)
Record document : Type := {
  ytModal : option modal_element;
  ytPlayer : option player_element;
  opened : list (string * string * string)
}.

(** A template literal prints [undefined] for a missing value. *)
Definition interpolate (v : option string) : string := default "undefined" v.

(** [openVideo] (source lines 48-57) *)
Definition openVideo (open_in : string) (videoId : option string)
  (d : document) : document :=
  let url := "https://www.youtube.com/embed/" ++ interpolate videoId ++ "?autoplay=1" in
  match ytModal d, ytPlayer d with
  | Some modal, Some player =>
      if String.eqb open_in "newtab" then
        {| ytModal := ytModal d; ytPlayer := ytPlayer d;
           opened := opened d
                     ++ [("https://www.youtube.com/watch?v=" ++ interpolate videoId,
                          "_blank", "noopener")] |}
      else
        {| ytModal := Some {| classList := classList modal ∖ {["hidden"]};
                              aria_hidden := Some "false";
                              has_close := has_close modal |};
           ytPlayer := Some {| src := Some url |};
           opened := opened d |}
  | _, _ =>
      {| ytModal := ytModal d; ytPlayer := ytPlayer d;
         opened := opened d
                   ++ [("https://www.youtube.com/watch?v=" ++ interpolate videoId,
                        "_blank", "noopener")] |}
  end.

(** [closeModal] (source lines 59-64) *)
Definition closeModal (d : document) : document :=
  match ytModal d, ytPlayer d with
  | Some modal, Some player =>
      {| ytModal := Some {| classList := {["hidden"]} ∪ classList modal;
                            aria_hidden := Some "true";
                            has_close := has_close modal |};
         ytPlayer := Some {| src := Some "" |};
         opened := opened d |}
  | _, _ => d
  end.

(** What the user does: a click on the close button, a click in the modal
    (on the modal element itself or on something inside it), a key press,
    a click on a card's thumbnail, title or button. *)
Inductive ui_event : Set :=
| CloseClick
| ModalClick (on_modal_itself : bool)
| KeyDown (key : string)
| CardClick (videoId : option string).

(** The listeners of source lines 66-68 and 136-139. *)
Definition dispatch (open_in : string) (d : document) (e : ui_event)
  : document :=
  match e with
  | CloseClick =>
      match ytModal d with
      | Some modal => if has_close modal then closeModal d else d
      | None => d
      end
  | ModalClick on_modal_itself =>
      match ytModal d with
      | Some _ => if on_modal_itself then closeModal d else d
      | None => d
      end
  | KeyDown key =>
      match ytModal d with
      | Some modal =>
          if String.eqb key "Escape"
             && negb (bool_decide ("hidden" ∈ classList modal))
          then closeModal d
          else d
      | None => d
      end
  | CardClick videoId => openVideo open_in videoId d
  end.

(** ** The thumbnail of the second script (source lines 393-398) *)

(** [bestThumb]: the picked URL, or the still that YouTube serves for the
    video. *)
Definition bestThumb (item : video_item) : string :=
  let t := match vi_snippet item with
           | Some sn => sn_thumbnails sn
           | None => None
           end in
  let pick := match t with
              | Some t =>
                  or_obj (th_maxres t) (or_obj (th_standard t)
                    (or_obj (th_high t) (or_obj (th_medium t) (th_default t))))
              | None => None
              end in
  Js.or_else (match pick with Some th => url th | None => None end)
    ("https://i.ytimg.com/vi/" ++ interpolate (vi_id item) ++ "/hqdefault.jpg").

(** ** More vocabulary *)

(** The characters [escapeHtml] replaces, but for the ampersand. *)
Definition markup_char (c : ascii) : bool :=
  let n := nat_of_ascii c in
  ((n =? 60) || (n =? 62) || (n =? 34) || (n =? 39))%nat.

(** The five characters [escapeHtml] replaces. *)
Definition special_char (c : ascii) : bool :=
  ((nat_of_ascii c =? 38)%nat || markup_char c)%bool.

(** The modal and the player agree: a hidden modal is marked hidden for
    assistive technology and its player has no video loaded; a visible one
    is marked visible. *)
Definition settled_modal (d : document) : Prop :=
  forall modal player,
    ytModal d = Some modal -> ytPlayer d = Some player ->
    if bool_decide ("hidden" ∈ classList modal)
    then aria_hidden modal = Some "true" /\ src player = Some ""
    else aria_hidden modal = Some "false".

(** A document with the modal closed. *)
Definition document0 : document :=
  {| ytModal := Some {| classList := {["modal"; "hidden"]};
                        aria_hidden := Some "true"; has_close := true |};
     ytPlayer := Some {| src := Some "" |};
     opened := [] |}.

(** A document without the modal markup. *)
Definition document_bare : document :=
  {| ytModal := None; ytPlayer := None; opened := [] |}.

(** Attributes with numerals. *)
Definition attributes_numeric : attributes :=
  {| data_api_key := Some "KEY"; data_channel_id := Some "UC123";
     data_max_results := Some "80"; data_open_in := Some "NewTab";
     data_timezone := None; data_channel_handle := Some "@vumc";
     data_hide_past_hours := Some "-3" |}.

(** The widget of another channel. *)
Definition cfg_other : config :=
  {| API_KEY := "KEY"; CHANNEL_ID := "UC999"; max_results := Js.Fin 12;
     channel_handle := None; hide_past_hours := Js.Fin 6 |}.

(** An environment whose storage accepts every write. *)
Definition storage_unbounded (env : environment) : Prop :=
  forall k e, storage_accepts env k e = true.

(** Attributes whose grace period is a word. *)
Definition attributes_words : attributes :=
  {| data_api_key := Some "KEY"; data_channel_id := Some "UC123";
     data_max_results := None; data_open_in := None;
     data_timezone := None; data_channel_handle := None;
     data_hide_past_hours := Some "never" |}.

(** A feed in which no two retained events have the same sort key. *)
Definition feed_distinct : list event := [ev_second; ev_ended; ev_tba; ev_first].

(** * Properties *)

(** ** Numbers and [parseInt] *)

Example parseInt_12 : Js.parseInt "12" = Js.Fin 12.
Proof. reflexivity. Qed.

Example parseInt_leading_space_sign : Js.parseInt "  -7px" = Js.Fin (-7).
Proof. reflexivity. Qed.

Example parseInt_no_digit : Js.parseInt "abc" = Js.NaN.
Proof. reflexivity. Qed.

Lemma Math_min_Fin (a b : Z) : Js.Math_min (Js.Fin a) (Js.Fin b) = Js.Fin (Z.min a b).
Proof.
  unfold Js.Math_min, Js.lt. destruct (Z.ltb_spec a b); f_equal; lia.
Qed.

Lemma Math_min_NaN_l (b : Js.num) : Js.Math_min Js.NaN b = Js.NaN.
Proof. reflexivity. Qed.

Lemma parseInt_cases (s : string) :
  Js.parseInt s = Js.NaN \/ exists n, Js.parseInt s = Js.Fin n.
Proof.
  unfold Js.parseInt.
  destruct (match Js.trim_start s with
            | String "-" r => (-1, r)
            | String "+" r => (1, r)
            | _ => (1, Js.trim_start s)
            end) as [sign s2].
  destruct (Js.read_digits false 0 s2); eauto.
Qed.

(** ** Configuration *)

(** When the attribute is absent, or empty, the maximum is 12. *)
Lemma MAX_RESULTS_default (a : attributes) :
  Js.truthy (data_max_results a) = false -> MAX_RESULTS a = Js.Fin 12.
Proof.
  unfold MAX_RESULTS, Js.or_else, Js.truthy.
  destruct (data_max_results a) as [s|]; [|reflexivity].
  intros ->. reflexivity.
Qed.

(** When [parseInt] reads a number, the maximum is that number capped at 50. *)
Lemma MAX_RESULTS_number (a : attributes) (n : Z) :
  Js.parseInt (Js.or_else (data_max_results a) "12") = Js.Fin n ->
  MAX_RESULTS a = Js.Fin (Z.min n 50).
Proof. unfold MAX_RESULTS. intros ->. apply Math_min_Fin. Qed.

(** Either no number was read and the maximum is NaN, or it is at most 50. *)
Lemma MAX_RESULTS_cases (a : attributes) :
  MAX_RESULTS a = Js.NaN \/ exists n, MAX_RESULTS a = Js.Fin n /\ n <= 50.
Proof.
  unfold MAX_RESULTS.
  destruct (parseInt_cases (Js.or_else (data_max_results a) "12")) as [->|[n ->]].
  - left. reflexivity.
  - right. exists (Z.min n 50). split; [apply Math_min_Fin | lia].
Qed.

Lemma Math_max_Fin (a b : Z) : Js.Math_max (Js.Fin a) (Js.Fin b) = Js.Fin (Z.max a b).
Proof.
  unfold Js.Math_max, Js.lt. destruct (Z.ltb_spec a b); f_equal; lia.
Qed.

(** When the attribute is absent, or empty, the grace period is 6 hours. *)
Lemma HIDE_PAST_HOURS_default (a : attributes) :
  Js.truthy (data_hide_past_hours a) = false -> HIDE_PAST_HOURS a = Js.Fin 6.
Proof.
  unfold HIDE_PAST_HOURS, Js.or_else, Js.truthy.
  destruct (data_hide_past_hours a) as [s|]; [|reflexivity].
  intros ->. reflexivity.
Qed.

(** Either no number was read and the grace period is NaN, or it is not
    negative. *)
Lemma HIDE_PAST_HOURS_cases (a : attributes) :
  HIDE_PAST_HOURS a = Js.NaN \/ exists n, HIDE_PAST_HOURS a = Js.Fin n /\ 0 <= n.
Proof.
  unfold HIDE_PAST_HOURS.
  destruct (parseInt_cases (Js.or_else (data_hide_past_hours a) "6")) as [->|[n ->]].
  - left. reflexivity.
  - right. exists (Z.max 0 n). split; [apply Math_max_Fin | lia].
Qed.

(** C8, at the input [data-max-results="all"]: [parseInt] reads no number,
    [Math.min(NaN, 50)] is NaN, the comparison [NaN <= 50] is false, and the
    search request carries [maxResults=NaN]. *)
Theorem MAX_RESULTS_not_a_number :
  MAX_RESULTS attributes_all = Js.NaN
  /\ Js.le (MAX_RESULTS attributes_all) (Js.Fin 50) = false
  /\ (exists cfg, configure attributes_all = Some cfg
        /\ In ("maxResults", "NaN") (searchParams (searchURL cfg))).
Proof.
  split; [reflexivity|]. split; [reflexivity|].
  eexists. split; [reflexivity|]. vm_compute. tauto.
Qed.

(** ** Order on sort keys *)

Lemma lt_irrefl (a : Js.num) : Js.lt a a = false.
Proof. destruct a; cbn; auto using Z.ltb_irrefl. Qed.

Lemma lt_le (a b : Js.num) : Js.lt a b = true -> Js.le a b = true.
Proof. destruct a, b; cbn; try easy. intros H. apply Z.leb_le. apply Z.ltb_lt in H. lia. Qed.

Lemma not_lt_le (a b : Js.num) :
  ordinary a -> ordinary b -> Js.lt b a = false -> Js.le a b = true.
Proof.
  intros [Ha Ha'] [Hb Hb']. destruct a, b; cbn; try easy.
  intros H. apply Z.leb_le. apply Z.ltb_ge in H. lia.
Qed.

Lemma le_not_lt (a b : Js.num) : Js.le a b = true -> Js.lt b a = false.
Proof.
  destruct a, b; cbn; try easy.
  intros H. apply Z.ltb_ge. apply Z.leb_le in H. lia.
Qed.

Lemma le_trans (a b c : Js.num) :
  Js.le a b = true -> Js.le b c = true -> Js.le a c = true.
Proof.
  destruct a, b, c; cbn; try easy.
  rewrite !Z.leb_le. lia.
Qed.

Lemma le_antisym (a b : Js.num) :
  Js.le a b = true -> Js.le b a = true -> a = b.
Proof.
  destruct a, b; cbn; try easy.
  rewrite !Z.leb_le. intros. f_equal. lia.
Qed.

(** ** [Array.prototype.sort] with a comparator [key a - key b] *)

Section SortFacts.
Context {A : Type} (key : A -> Js.num).

Local Abbreviation comparator := (fun a b : A => Js.sub (key a) (key b)).
Local Abbreviation before := (fun a b : A => Js.le (key a) (key b) = true).
(** On ordinary keys the sort takes [x] past [y] exactly when [y]'s key
    is the smaller one. *)
Lemma gt_SortCompare (x y : A) :
  ordinary (key x) -> ordinary (key y) ->
  Js.gt (Js.SortCompare comparator x y) (Js.Fin 0) = Js.lt (key y) (key x).
Proof.
  intros [] []. unfold Js.SortCompare, Js.gt.
  destruct (key x), (key y); cbn; try easy.
  destruct (Z.ltb_spec 0 (z + - z0)), (Z.ltb_spec z0 z); lia.
Qed.

(** Whatever the keys, [x] only goes past a [y] with a different key. *)
Lemma gt_SortCompare_neq (x y : A) :
  Js.gt (Js.SortCompare comparator x y) (Js.Fin 0) = true -> key x <> key y.
Proof.
  unfold Js.SortCompare, Js.gt. intros H E. rewrite E in H.
  destruct (key y); cbn in H; try easy.
  replace (z + - z) with 0 in H by lia. easy.
Qed.

Lemma insert_Permutation (c : A -> A -> Js.num) (x : A) (l : list A) :
  Permutation (x :: l) (Js.insert c x l).
Proof.
  induction l as [|y l IH]; cbn [Js.insert]; [reflexivity|].
  destruct (Js.gt _ _); [|reflexivity].
  rewrite <- IH. apply perm_swap.
Qed.

Lemma sort_Permutation (c : A -> A -> Js.num) (l : list A) :
  Permutation l (Js.sort c l).
Proof.
  induction l as [|x l IH]; cbn; [reflexivity|].
  rewrite <- insert_Permutation. now constructor.
Qed.

Lemma sort_In (c : A -> A -> Js.num) (l : list A) (x : A) :
  In x (Js.sort c l) <-> In x l.
Proof.
  split; apply Permutation_in;
    [symmetry|]; apply sort_Permutation.
Qed.

Lemma insert_sorted (x : A) (l : list A) :
  Forall (fun a => ordinary (key a)) (x :: l) ->
  StronglySorted before l ->
  StronglySorted before (Js.insert comparator x l).
Proof.
  intros Hord Hs. induction Hs as [|y l Hs IH Hy]; cbn [Js.insert].
  - repeat constructor.
  - inversion Hord as [|? ? Hx Hl]; subst.
    inversion Hl as [|? ? Hy' Hl']; subst.
    rewrite gt_SortCompare by assumption.
    destruct (Js.lt (key y) (key x)) eqn:E.
    + constructor.
      * apply IH. now constructor.
      * eapply Permutation_Forall; [apply insert_Permutation|].
        constructor; [now apply lt_le | assumption].
    + assert (Hxy : Js.le (key x) (key y) = true) by now apply not_lt_le.
      constructor; [now constructor|].
      constructor; [assumption|].
      eapply List.Forall_impl; [|exact Hy].
      cbn. intros z Hz. eapply le_trans; eassumption.
Qed.

Lemma sort_sorted (l : list A) :
  Forall (fun a => ordinary (key a)) l ->
  StronglySorted before (Js.sort comparator l).
Proof.
  induction 1 as [|x l Hx Hl IH]; cbn; [constructor|].
  apply insert_sorted; [|assumption].
  constructor; [assumption|].
  eapply Permutation_Forall; [apply sort_Permutation|assumption].
Qed.

(** A sorted list is left as it is. *)
Lemma sort_sorted_id (l : list A) :
  StronglySorted before l -> Js.sort comparator l = l.
Proof.
  induction 1 as [|x l Hs IH Hx]; cbn [Js.sort]; [reflexivity|].
  rewrite IH. destruct l as [|y l]; [reflexivity|]. cbn [Js.insert].
  pose proof (List.Forall_inv Hx) as Hxy. cbn beta in Hxy.
  destruct (Js.gt _ _) eqn:E; [|reflexivity].
  exfalso. unfold Js.SortCompare, Js.gt in E.
  destruct (key x), (key y); cbn in *; try easy.
  apply Z.leb_le in Hxy. apply Z.ltb_lt in E. lia.
Qed.

(** Stability: the records of one key keep their order. *)
Lemma filter_insert (p : A -> bool) (x : A) (l : list A) :
  (forall y, Js.gt (Js.SortCompare comparator x y) (Js.Fin 0) = true ->
             p x = true -> p y = false) ->
  List.filter p (Js.insert comparator x l) = List.filter p (x :: l).
Proof.
  intros Hp. induction l as [|y l IH]; [reflexivity|].
  cbn [Js.insert]. destruct (Js.gt _ _) eqn:E; [|reflexivity].
  cbn [List.filter] in *. rewrite IH.
  destruct (p x) eqn:Ex; [|reflexivity].
  now rewrite (Hp y E).
Qed.

Lemma filter_sort (p : A -> bool) (l : list A) :
  (forall x y, Js.gt (Js.SortCompare comparator x y) (Js.Fin 0) = true ->
               p x = true -> p y = false) ->
  List.filter p (Js.sort comparator l) = List.filter p l.
Proof.
  intros Hp. induction l as [|x l IH]; [reflexivity|].
  cbn [Js.sort]. rewrite filter_insert by apply Hp.
  cbn. now rewrite IH.
Qed.

Lemma filter_sort_key (k : Js.num) (l : list A) :
  List.filter (fun a => bool_decide (key a = k)) (Js.sort comparator l)
  = List.filter (fun a => bool_decide (key a = k)) l.
Proof.
  apply filter_sort. intros x y Hgt Hx.
  apply bool_decide_eq_true in Hx. apply bool_decide_eq_false.
  intros Hy. apply (gt_SortCompare_neq _ _ Hgt). congruence.
Qed.

(** Two sorted lists with the same records of each key, in the same order,
    are the same list. *)
Lemma sorted_by_key_unique (l1 l2 : list A) :
  StronglySorted before l1 -> StronglySorted before l2 ->
  (forall k, List.filter (fun a => bool_decide (key a = k)) l1
             = List.filter (fun a => bool_decide (key a = k)) l2) ->
  l1 = l2.
Proof.
  intros H1. revert l2.
  induction H1 as [|a l1 Hs1 IH Ha]; intros l2 H2 Hf.
  - destruct l2 as [|b l2]; [reflexivity|].
    specialize (Hf (key b)). cbn in Hf.
    rewrite bool_decide_eq_true_2 in Hf by reflexivity. discriminate.
  - destruct l2 as [|b l2].
    { specialize (Hf (key a)). cbn in Hf.
      rewrite bool_decide_eq_true_2 in Hf by reflexivity. discriminate. }
    apply StronglySorted_inv in H2 as [Hs2 Hb].
    assert (Hkey : key a = key b).
    { assert (Ha2 : In a (b :: l2)).
      { apply (proj1 (filter_In (fun x => bool_decide (key x = key a)) a (b :: l2))).
        rewrite <- Hf. cbn. rewrite bool_decide_eq_true_2 by reflexivity.
        now left. }
      assert (Hb1 : In b (a :: l1)).
      { apply (proj1 (filter_In (fun x => bool_decide (key x = key b)) b (a :: l1))).
        rewrite Hf. cbn. rewrite bool_decide_eq_true_2 by reflexivity.
        now left. }
      destruct Ha2 as [<-|Ha2]; [reflexivity|].
      destruct Hb1 as [<-|Hb1]; [reflexivity|].
      rewrite List.Forall_forall in Ha, Hb.
      apply le_antisym; [now apply Ha | now apply Hb]. }
    assert (Hab : a = b).
    { specialize (Hf (key a)). cbn in Hf.
      rewrite bool_decide_eq_true_2 in Hf by reflexivity.
      rewrite bool_decide_eq_true_2 in Hf by (symmetry; exact Hkey).
      now injection Hf. }
    subst b. f_equal. apply IH; [assumption|].
    intros k. specialize (Hf k). cbn in Hf.
    destruct (bool_decide (key a = k)); [now injection Hf | exact Hf].
Qed.

(** The list [Js.sort] computes is the one ECMAScript asks for when the
    comparator is consistent: any list that is sorted and keeps the records
    of each key in their order in [l] is that list. *)
Lemma sort_unique (l l' : list A) :
  Forall (fun a => ordinary (key a)) l ->
  StronglySorted before l' ->
  (forall k, List.filter (fun a => bool_decide (key a = k)) l'
             = List.filter (fun a => bool_decide (key a = k)) l) ->
  l' = Js.sort comparator l.
Proof.
  intros Hord Hs Hf. apply sorted_by_key_unique.
  - exact Hs.
  - now apply sort_sorted.
  - intros k. now rewrite filter_sort_key.
Qed.

End SortFacts.

Lemma StronglySorted_lookup {A : Type} (R : A -> A -> Prop) (l : list A) :
  StronglySorted R l ->
  forall (i j : nat) (a b : A),
    (i < j)%nat -> l !! i = Some a -> l !! j = Some b -> R a b.
Proof.
  induction 1 as [|x l Hs IH Hx]; intros i j a b Hij Hi Hj.
  - discriminate.
  - destruct j as [|j]; [lia|]. cbn in Hj.
    destruct i as [|i]; cbn in Hi.
    + injection Hi as <-. rewrite List.Forall_forall in Hx. apply Hx.
      apply list_elem_of_In. eapply list_elem_of_lookup_2; eassumption.
    + apply (IH i j); [lia|assumption..].
Qed.

Lemma StronglySorted_after {A : Type} (R : A -> A -> Prop) (l1 l2 : list A)
  (a : A) :
  StronglySorted R (l1 ++ a :: l2)%list -> Forall (R a) l2.
Proof.
  induction l1 as [|x l1 IH]; cbn; intros H;
    apply StronglySorted_inv in H as [H1 H2]; auto.
Qed.

Lemma filter_all {A : Type} (p : A -> bool) (l : list A) :
  (forall x, In x l -> p x = true) -> List.filter p l = l.
Proof.
  intros H. apply forallb_filter_id. apply forallb_forall. exact H.
Qed.

(** ** Normalisation *)

Lemma or_null_null_or_set (v : option string) : null_or_set (Js.or_null v).
Proof. destruct v as [[|c s]|]; cbn; easy. Qed.

(** What line 193-195 build is [null] or a non-empty string. *)
Lemma normalize_normalized (v : video_item) : normalized (normalize v).
Proof. repeat split; apply or_null_null_or_set. Qed.

Lemma null_or_set_truthy (v : option string) :
  null_or_set v -> Js.truthy v = false -> v = None.
Proof. destruct v as [[|c s]|]; cbn; easy. Qed.

(** ** The freshness filter and the ordering *)

Section FreshnessFacts.
Variable D : string -> option Z.

Lemma freshSorted_In (now : Z) (hp : Js.num) (evs : list event) (ev : event) :
  In ev (freshSorted D now hp evs) <-> In ev evs /\ fresh D now hp ev = true.
Proof. unfold freshSorted. rewrite sort_In. apply filter_In. Qed.

Lemma fresh_not_ended (now : Z) (hp : Js.num) (ev : event) :
  fresh D now hp ev = true -> Js.truthy (actualEnd ev) = false.
Proof. unfold fresh. destruct (Js.truthy (actualEnd ev)); easy. Qed.

(** A record without a scheduled start passes unless it has ended. *)
Lemma fresh_no_start (now : Z) (hp : Js.num) (ev : event) :
  has_start ev = false -> fresh D now hp ev = negb (Js.truthy (actualEnd ev)).
Proof.
  unfold has_start, fresh, Js.truthy.
  destruct (actualEnd ev) as [[|]|]; cbn; try reflexivity;
    destruct (scheduled ev) as [[|]|]; cbn; easy.
Qed.

Lemma sortKey_no_start (ev : event) : has_start ev = false -> sortKey D ev = Js.PInf.
Proof.
  unfold has_start, sortKey, Js.truthy.
  destruct (scheduled ev) as [[|]|]; cbn; easy.
Qed.

Lemma sortKey_start (ev : event) (t : Z) :
  scheduledStart D ev = Some t -> sortKey D ev = Js.Fin t.
Proof.
  unfold scheduledStart, sortKey, getTime.
  destruct (scheduled ev) as [[|]|]; cbn; try easy. now intros ->.
Qed.

Lemma scheduledStart_has_start (ev : event) (t : Z) :
  scheduledStart D ev = Some t -> has_start ev = true.
Proof.
  unfold scheduledStart, has_start, Js.truthy.
  destruct (scheduled ev) as [[|]|]; cbn; easy.
Qed.

Lemma dated_ordinary (ev : event) : dated D ev -> ordinary (sortKey D ev).
Proof.
  intros H. destruct (has_start ev) eqn:E.
  - destruct (H E) as [t Ht]. rewrite (sortKey_start _ _ Ht). now split.
  - rewrite sortKey_no_start by assumption. now split.
Qed.

Lemma dated_PInf (ev : event) :
  dated D ev -> sortKey D ev = Js.PInf -> has_start ev = false.
Proof.
  intros H K. destruct (has_start ev) eqn:E; [|reflexivity].
  destruct (H E) as [t Ht]. rewrite (sortKey_start _ _ Ht) in K. easy.
Qed.

Lemma freshSorted_sorted (now : Z) (hp : Js.num) (evs : list event) :
  Forall (dated D) evs ->
  StronglySorted (fun a b => Js.le (sortKey D a) (sortKey D b) = true)
    (freshSorted D now hp evs).
Proof.
  intros H. apply (sort_sorted (sortKey D)).
  rewrite List.Forall_forall in *. intros ev Hev.
  apply dated_ordinary, H. apply filter_In in Hev. tauto.
Qed.

(** The start-less records keep their order. *)
Lemma freshSorted_stable (now : Z) (hp : Js.num) (evs : list event) :
  List.filter (fun ev => negb (has_start ev)) (freshSorted D now hp evs)
  = List.filter (fun ev => negb (has_start ev)) (List.filter (fresh D now hp) evs).
Proof.
  apply (filter_sort (sortKey D)). intros x y Hgt Hx.
  apply negb_true_iff in Hx. apply negb_false_iff.
  unfold Js.SortCompare, Js.gt in Hgt.
  rewrite (sortKey_no_start x Hx) in Hgt.
  destruct (has_start y) eqn:E; [reflexivity|].
  rewrite (sortKey_no_start y E) in Hgt. discriminate.
Qed.

(** C1. Whatever the input sequence, the time "now" and the grace period,
    an event record whose actual-end is not null is not in the output of the
    filter-and-sort; nothing is asked of its other fields.  A time field
    that is not null is a non-empty string: lines 193-195 build no other
    ([normalize_normalized]). *)
Theorem ended_event_excluded (now : Z) (hp : Js.num) (evs : list event)
  (ev : event) (iso : string) :
  actualEnd ev = Some iso -> iso <> "" ->
  ~ In ev (freshSorted D now hp evs).
Proof.
  intros Hend Hiso Hin.
  apply freshSorted_In in Hin as [_ Hf].
  apply fresh_not_ended in Hf.
  rewrite Hend in Hf. destruct iso; [easy | discriminate].
Qed.

(** No record of [detailed] has an actual end. *)
Lemma detailed_none_ended (now : Z) (hours : Js.num)
  (items : list video_item) (ev : event) :
  In ev (detailed D now hours items) -> actualEnd ev = None.
Proof.
  intros Hin. apply freshSorted_In in Hin as [Hin Hf].
  apply fresh_not_ended in Hf.
  apply in_map_iff in Hin as (v & <- & _).
  apply null_or_set_truthy; [|assumption].
  apply normalize_normalized.
Qed.

Lemma hidePastMs_hours (g : Z) : hidePastMs (Js.Fin g) = Js.Fin (g * hour).
Proof. unfold hidePastMs, hour. cbn. f_equal. lia. Qed.

(** C2. For a grace period of [g >= 0] hours and "now" = [now]: a record that
    has neither ended nor started and is scheduled at [now - g h - 1 h] is
    not in the output; the same record scheduled at [now - g h + 1 h] is in
    the output whenever it is in the input. *)
Theorem stale_boundary (now g : Z) (ev : event) (late early : string)
  (evs : list event) :
  0 <= g ->
  actualEnd ev = None -> actualStart ev = None ->
  late <> "" -> early <> "" ->
  D late = Some (now - g * hour - hour) ->
  D early = Some (now - g * hour + hour) ->
  ~ In (with_scheduled late ev) (freshSorted D now (hidePastMs (Js.Fin g)) evs)
  /\ (In (with_scheduled early ev) evs ->
      In (with_scheduled early ev)
         (freshSorted D now (hidePastMs (Js.Fin g)) evs)).
Proof.
  intros Hg Hend Hstart Hl He Dl De. rewrite hidePastMs_hours. split.
  - intros Hin. apply freshSorted_In in Hin as [_ Hf]. revert Hf.
    unfold fresh, getTime. cbn. rewrite Hend, Hstart, Dl. cbn.
    destruct late; [easy|]. cbn.
    replace (now - g * hour - hour + g * hour <? now) with true; [easy|].
    symmetry. apply Z.ltb_lt. unfold hour. lia.
  - intros Hin. apply freshSorted_In. split; [assumption|].
    unfold fresh, getTime. cbn. rewrite Hend, Hstart, De. cbn.
    destruct early; [easy|]. cbn.
    replace (now - g * hour + hour + g * hour <? now) with false; [easy|].
    symmetry. apply Z.ltb_ge. unfold hour. lia.
Qed.

(** C3. When the scheduled starts are timestamps, the output of the
    filter-and-sort holds the records the filter keeps, each as often as
    the filter keeps it, and no other; it is in ascending order of scheduled
    start; a record without a scheduled start comes after every record with
    one; and the records without a scheduled start are, in the output, in
    the order they have in the input. *)
Theorem sorted_by_scheduled_start (now : Z) (hp : Js.num) (evs : list event) :
  Forall (dated D) evs ->
  let out := freshSorted D now hp evs in
  Permutation out (List.filter (fresh D now hp) evs)
  /\ (forall (i j : nat) (a b : event) (ta tb : Z),
        (i < j)%nat -> out !! i = Some a -> out !! j = Some b ->
        scheduledStart D a = Some ta -> scheduledStart D b = Some tb ->
        ta <= tb)
  /\ (forall (i j : nat) (a b : event),
        out !! i = Some a -> out !! j = Some b ->
        has_start a = false -> has_start b = true -> (j < i)%nat)
  /\ List.filter (fun ev => negb (has_start ev)) out
     = List.filter (fun ev => negb (has_start ev))
         (List.filter (fresh D now hp) evs).
Proof.
  intros Hd out.
  pose proof (freshSorted_sorted now hp evs Hd) as Hs. fold out in Hs.
  split; [|split; [|split]].
  - symmetry. apply sort_Permutation.
  - intros i j a b ta tb Hij Hi Hj Ha Hb.
    pose proof (StronglySorted_lookup _ _ Hs i j a b Hij Hi Hj) as H.
    cbn beta in H.
    rewrite (sortKey_start _ _ Ha), (sortKey_start _ _ Hb) in H.
    now apply Z.leb_le in H.
  - intros i j a b Hi Hj Ha Hb.
    destruct (Nat.lt_trichotomy j i) as [Hlt|[->|Hgt]]; [assumption| |].
    + congruence.
    + exfalso.
      pose proof (StronglySorted_lookup _ _ Hs i j a b Hgt Hi Hj) as H.
      cbn beta in H. rewrite (sortKey_no_start a Ha) in H.
      assert (Hb' : dated D b).
      { rewrite List.Forall_forall in Hd. apply Hd.
        apply list_elem_of_lookup_2, list_elem_of_In in Hj.
        apply freshSorted_In in Hj. tauto. }
      destruct (Hb' Hb) as [tb Htb].
      rewrite (sortKey_start _ _ Htb) in H. discriminate.
  - apply freshSorted_stable.
Qed.

(** C4. When the scheduled starts are timestamps, filtering and sorting
    the output of the filter-and-sort again, with the same "now" and grace
    period, gives that output back. *)
Theorem freshSorted_idempotent (now : Z) (hp : Js.num) (evs : list event) :
  Forall (dated D) evs ->
  freshSorted D now hp (freshSorted D now hp evs) = freshSorted D now hp evs.
Proof.
  intros Hd. unfold freshSorted at 1.
  rewrite filter_all.
  - apply (sort_sorted_id (sortKey D)). now apply freshSorted_sorted.
  - intros ev Hev. apply freshSorted_In in Hev. tauto.
Qed.

Lemma normalize_no_details (v : video_item) :
  vi_liveStreamingDetails v = None ->
  scheduled (normalize v) = None /\ actualStart (normalize v) = None
  /\ actualEnd (normalize v) = None.
Proof. unfold normalize, lsd_field. cbn. now intros ->. Qed.

(** C9. An item of the details endpoint without [liveStreamingDetails]
    becomes a record whose scheduled start, actual start and actual end are
    null; the filter keeps it whatever "now" and the grace period are; and
    in the output, when the scheduled starts of the records are timestamps,
    no record that follows it has a scheduled start. *)
Theorem no_liveStreamingDetails (now : Z) (hours : Js.num)
  (items : list video_item) (v : video_item) :
  vi_liveStreamingDetails v = None ->
  let ev := normalize v in
  (scheduled ev = None /\ actualStart ev = None /\ actualEnd ev = None)
  /\ (forall (now' : Z) (hp : Js.num), fresh D now' hp ev = true)
  /\ (In v items -> In ev (detailed D now hours items))
  /\ (Forall (dated D) (map normalize items) ->
      forall l1 l2 : list event,
        detailed D now hours items = (l1 ++ ev :: l2)%list ->
        Forall (fun b => has_start b = false) l2).
Proof.
  intros Hv ev.
  destruct (normalize_no_details v Hv) as (Hs & Ha & He). fold ev in Hs, Ha, He.
  assert (Hfresh : forall now' hp, fresh D now' hp ev = true).
  { intros now' hp. unfold fresh. now rewrite He, Hs. }
  split; [easy|]. split; [exact Hfresh|]. split.
  - intros Hin. apply freshSorted_In. split; [|apply Hfresh].
    now apply in_map.
  - intros Hd l1 l2 Hout.
    pose proof (freshSorted_sorted now (hidePastMs hours) _ Hd) as Hsorted.
    fold (detailed D now hours items) in Hsorted. rewrite Hout in Hsorted.
    apply StronglySorted_after in Hsorted.
    assert (Hdb : Forall (dated D) l2).
    { apply List.Forall_forall. intros b Hb.
      assert (Hin : In b (detailed D now hours items)).
      { rewrite Hout. apply in_or_app. right. now right. }
      apply freshSorted_In in Hin as [Hin _].
      rewrite List.Forall_forall in Hd. now apply Hd. }
    rewrite List.Forall_forall in *. intros b Hb.
    apply (dated_PInf b (Hdb b Hb)).
    specialize (Hsorted b Hb). cbn beta in Hsorted.
    rewrite (sortKey_no_start ev) in Hsorted
      by (unfold has_start; now rewrite Hs).
    destruct (sortKey D b); cbn in Hsorted; easy.
Qed.

End FreshnessFacts.

(** *** Worked inputs for the filter and the ordering *)

Lemma feed_dated : Forall (dated Iso.getTime) feed.
Proof.
  repeat constructor; intros H; try discriminate H; vm_compute; eauto.
Defined.

Example freshSorted_feed :
  freshSorted Iso.getTime new_year (hidePastMs (Js.Fin 6)) feed
  = [ev_first; ev_second; ev_tba; ev_tba2].
Proof. reflexivity. Qed.

Lemma ended_event_excluded_witness :
  actualEnd ev_ended = Some "2024-12-25T11:02:00Z"
  /\ ~ In ev_ended (freshSorted Iso.getTime new_year (hidePastMs (Js.Fin 6)) feed).
Proof.
  split; [reflexivity|].
  apply (ended_event_excluded Iso.getTime _ _ _ _ "2024-12-25T11:02:00Z");
    [reflexivity | discriminate].
Defined.

Lemma stale_boundary_witness :
  let now := new_year + 10 * hour in
  let late := "2025-01-01T03:00:00Z" in
  let early := "2025-01-01T05:00:00Z" in
  let evs := [with_scheduled late ev_tba; with_scheduled early ev_tba] in
  Iso.getTime late = Some (now - 6 * hour - hour)
  /\ Iso.getTime early = Some (now - 6 * hour + hour)
  /\ ~ In (with_scheduled late ev_tba)
         (freshSorted Iso.getTime now (hidePastMs (Js.Fin 6)) evs)
  /\ In (with_scheduled early ev_tba)
         (freshSorted Iso.getTime now (hidePastMs (Js.Fin 6)) evs).
Proof.
  intros now late early evs.
  assert (Hl : Iso.getTime late = Some (now - 6 * hour - hour)) by reflexivity.
  assert (He : Iso.getTime early = Some (now - 6 * hour + hour)) by reflexivity.
  split; [exact Hl|]. split; [exact He|].
  destruct (stale_boundary Iso.getTime now 6 ev_tba late early evs)
    as [H1 H2]; try reflexivity; try discriminate; try assumption.
  split; [exact H1|]. apply H2. right. left. reflexivity.
Defined.

Lemma sorted_by_scheduled_start_witness :
  let out := freshSorted Iso.getTime new_year (hidePastMs (Js.Fin 6)) feed in
  Forall (dated Iso.getTime) feed
  /\ Permutation out [ev_second; ev_tba; ev_first; ev_tba2]
  /\ (forall (i j : nat) (a b : event) (ta tb : Z),
        (i < j)%nat -> out !! i = Some a -> out !! j = Some b ->
        scheduledStart Iso.getTime a = Some ta ->
        scheduledStart Iso.getTime b = Some tb -> ta <= tb)
  /\ (forall (i j : nat) (a b : event),
        out !! i = Some a -> out !! j = Some b ->
        has_start a = false -> has_start b = true -> (j < i)%nat)
  /\ List.filter (fun ev => negb (has_start ev)) out = [ev_tba; ev_tba2].
Proof.
  intros out. split; [exact feed_dated|].
  destruct (sorted_by_scheduled_start Iso.getTime new_year
              (hidePastMs (Js.Fin 6)) feed feed_dated) as (H0 & H1 & H2 & H3).
  split; [exact H0|]. split; [exact H1|]. split; [exact H2|].
  etransitivity; [exact H3|]. reflexivity.
Defined.

Lemma freshSorted_idempotent_witness :
  Forall (dated Iso.getTime) feed
  /\ freshSorted Iso.getTime new_year (hidePastMs (Js.Fin 6))
       (freshSorted Iso.getTime new_year (hidePastMs (Js.Fin 6)) feed)
     = freshSorted Iso.getTime new_year (hidePastMs (Js.Fin 6)) feed.
Proof.
  split; [exact feed_dated|].
  exact (freshSorted_idempotent Iso.getTime _ _ _ feed_dated).
Defined.

Lemma no_liveStreamingDetails_witness :
  let items := [item_plain; item_first] in
  vi_liveStreamingDetails item_plain = None
  /\ Forall (dated Iso.getTime) (map normalize items)
  /\ In (normalize item_plain) (detailed Iso.getTime new_year (Js.Fin 6) items)
  /\ detailed Iso.getTime new_year (Js.Fin 6) items
     = [normalize item_first; normalize item_plain]
  /\ Forall (fun b => has_start b = false) [].
Proof.
  intros items.
  assert (Hd : Forall (dated Iso.getTime) (map normalize items)).
  { repeat constructor; intros H; try discriminate H; vm_compute; eauto. }
  split; [reflexivity|]. split; [exact Hd|].
  destruct (no_liveStreamingDetails Iso.getTime new_year (Js.Fin 6) items
              item_plain eq_refl) as (_ & _ & H3 & H4).
  split; [apply H3; left; reflexivity|].
  split; [reflexivity|].
  apply (H4 Hd [normalize item_first] []). reflexivity.
Defined.

(** ** The cache *)

Lemma writeCache_accepted (cfg : config) (env : environment)
  (P : list event) (w : page) :
  storage_accepts env (CACHE_KEY cfg) {| ts := clock w; data := P |} = true ->
  localStorage (writeCache cfg env P w) !! CACHE_KEY cfg
  = Some (Json {| ts := clock w; data := P |}).
Proof.
  intros H. unfold writeCache. rewrite H. cbn. apply lookup_insert_eq.
Qed.

(** A refused write leaves the page as it was. *)
Lemma writeCache_refused (cfg : config) (env : environment)
  (P : list event) (w : page) :
  storage_accepts env (CACHE_KEY cfg) {| ts := clock w; data := P |} = false ->
  writeCache cfg env P w = w.
Proof. intros H. unfold writeCache. now rewrite H. Qed.

(** [writeCache] touches the storage only. *)
Lemma writeCache_rest (cfg : config) (env : environment)
  (P : list event) (w : page) :
  grid (writeCache cfg env P w) = grid w
  /\ status (writeCache cfg env P w) = status w
  /\ console (writeCache cfg env P w) = console w
  /\ fetched (writeCache cfg env P w) = fetched w
  /\ clock (writeCache cfg env P w) = clock w.
Proof. unfold writeCache. destruct (storage_accepts _ _ _); easy. Qed.

(** An entry is read back as long as its age is at most [CACHE_MS]. *)
Lemma readCache_entry (cfg : config) (w : page) (e : cache_entry) :
  localStorage w !! CACHE_KEY cfg = Some (Json e) ->
  readCache cfg w
  = if clock w - ts e >? CACHE_MS then None else Some (data e).
Proof. intros H. unfold readCache. now rewrite H. Qed.

Lemma readCache_at_time (cfg : config) (w : page) (e : cache_entry) (t : Z) :
  localStorage w !! CACHE_KEY cfg = Some (Json e) ->
  readCache cfg (at_time t w)
  = if t - ts e >? CACHE_MS then None else Some (data e).
Proof. intros H. now rewrite (readCache_entry cfg (at_time t w) e). Qed.

(** What is read depends on the storage and the clock only. *)
Lemma readCache_ext (cfg : config) (w w' : page) :
  localStorage w' = localStorage w -> clock w' = clock w ->
  readCache cfg w' = readCache cfg w.
Proof. unfold readCache. now intros -> ->. Qed.

(** C5. A payload written at time [T] (the storage accepting the write) is
    what a read of the same key returns at [T + CACHE_MS - 1]; a read at
    [T + CACHE_MS + 1] returns null.  [CACHE_MS] is five minutes. *)
Theorem cache_round_trip (cfg : config) (env : environment)
  (P : list event) (w : page) :
  storage_accepts env (CACHE_KEY cfg) {| ts := clock w; data := P |} = true ->
  let T := clock w in
  let w' := writeCache cfg env P w in
  CACHE_MS = 5 * 60 * 1000
  /\ readCache cfg (at_time (T + CACHE_MS - 1) w') = Some P
  /\ readCache cfg (at_time (T + CACHE_MS + 1) w') = None.
Proof.
  intros H T w'.
  pose proof (writeCache_accepted cfg env P w H) as Hl. fold w' in Hl.
  split; [reflexivity|].
  rewrite !(readCache_at_time cfg w' _ _ Hl). cbn [ts data].
  split.
  - replace (T + CACHE_MS - 1 - clock w >? CACHE_MS) with false; [easy|].
    symmetry. rewrite Z.gtb_ltb. apply Z.ltb_ge. unfold T. lia.
  - replace (T + CACHE_MS + 1 - clock w >? CACHE_MS) with true; [easy|].
    symmetry. rewrite Z.gtb_ltb. apply Z.ltb_lt. unfold T. lia.
Qed.

Lemma cache_round_trip_witness :
  storage_accepts env_nothing (CACHE_KEY cfg0)
    {| ts := clock page0; data := [ev_first; ev_tba] |} = true
  /\ readCache cfg0
       (at_time (new_year + 299999)
          (writeCache cfg0 env_nothing [ev_first; ev_tba] page0))
     = Some [ev_first; ev_tba]
  /\ readCache cfg0
       (at_time (new_year + 300001)
          (writeCache cfg0 env_nothing [ev_first; ev_tba] page0))
     = None.
Proof.
  split; [reflexivity|].
  destruct (cache_round_trip cfg0 env_nothing [ev_first; ev_tba] page0 eq_refl)
    as (_ & H1 & H2).
  split; [exact H1 | exact H2].
Defined.

(** At exactly [T + CACHE_MS] the entry is still served. *)
Lemma cache_served_at_threshold (cfg : config) (env : environment)
  (P : list event) (w : page) :
  storage_accepts env (CACHE_KEY cfg) {| ts := clock w; data := P |} = true ->
  readCache cfg (at_time (clock w + CACHE_MS) (writeCache cfg env P w)) = Some P.
Proof.
  intros H.
  rewrite (readCache_at_time cfg _ _ _ (writeCache_accepted cfg env P w H)).
  cbn [ts data].
  replace (clock w + CACHE_MS - clock w >? CACHE_MS) with false; [easy|].
  symmetry. rewrite Z.gtb_ltb. apply Z.ltb_ge. lia.
Qed.

(** ** Rendering from the cache *)

(** C10. A fresh entry is a hit whatever its payload: [loadFromCache]
    renders the payload, sets the status line and returns true.  When the
    payload is the empty sequence, the read does not return null and what
    is rendered is the call to action. *)
Theorem empty_cache_is_a_hit (cfg : config) (w : page) (e : cache_entry) :
  localStorage w !! CACHE_KEY cfg = Some (Json e) ->
  clock w - ts e <= CACHE_MS ->
  loadFromCache cfg w
  = (true, set_status "Loaded from cache." (renderGrid cfg (data e) w))
  /\ (data e = [] ->
      readCache cfg w = Some []
      /\ fst (loadFromCache cfg w) = true
      /\ grid (snd (loadFromCache cfg w)) = call_to_action cfg
      /\ status (snd (loadFromCache cfg w)) = "Loaded from cache.").
Proof.
  intros Hl Hfresh.
  assert (Hr : readCache cfg w = Some (data e)).
  { rewrite (readCache_entry cfg w e Hl).
    replace (clock w - ts e >? CACHE_MS) with false; [easy|].
    symmetry. rewrite Z.gtb_ltb. apply Z.ltb_ge. lia. }
  assert (Hc : loadFromCache cfg w
               = (true, set_status "Loaded from cache." (renderGrid cfg (data e) w))).
  { unfold loadFromCache. now rewrite Hr. }
  split; [exact Hc|].
  intros He. rewrite Hc, Hr, He. easy.
Qed.

Lemma empty_cache_is_a_hit_witness :
  localStorage page_cached_empty !! CACHE_KEY cfg0
  = Some (Json {| ts := new_year - 60000; data := [] |})
  /\ readCache cfg0 page_cached_empty = Some []
  /\ fst (loadFromCache cfg0 page_cached_empty) = true
  /\ grid (snd (loadFromCache cfg0 page_cached_empty)) = call_to_action cfg0.
Proof.
  assert (Hl : localStorage page_cached_empty !! CACHE_KEY cfg0
               = Some (Json {| ts := new_year - 60000; data := [] |}))
    by reflexivity.
  assert (Hf : clock page_cached_empty - (new_year - 60000) <= CACHE_MS)
    by (vm_compute; discriminate).
  split; [exact Hl|].
  destruct (empty_cache_is_a_hit cfg0 page_cached_empty _ Hl Hf) as [_ H].
  destruct (H eq_refl) as (H1 & H2 & H3 & _).
  split; [exact H1|]. split; [exact H2 | exact H3].
Defined.

(** Without an entry, with an unreadable one, or with an expired one,
    nothing is rendered and [loadFromCache] returns false. *)
Lemma loadFromCache_miss (cfg : config) (w : page) :
  readCache cfg w = None -> loadFromCache cfg w = (false, w).
Proof. intros H. unfold loadFromCache. now rewrite H. Qed.

(** ** The fetch routine *)

Section FetchFacts.
Variable D : string -> option Z.
Variable cfg : config.
Variable env : environment.

(** The page when the search request has left. *)
Local Abbreviation searching w :=
  (sent env (searchURL cfg) (set_status "Loading upcoming streams…" w)).

(** The run when the search finds nothing (source lines 171-176). *)
Lemma fetchUpcoming_empty (w : page) (res : Response searchData)
  (sd : searchData) :
  search_endpoint env (searchURL cfg) = Some res ->
  ok res = true -> json res = Some sd -> ids_of sd = [] ->
  fetchUpcoming D cfg env w
  = (Returned tt,
     writeCache cfg env []
       (set_status "No upcoming live streams scheduled."
          (renderGrid cfg [] (searching w)))).
Proof.
  intros Hs Hok Hj Hids. run_fetch.
  rewrite Hs, Hok. cbn. rewrite Hj, Hids. reflexivity.
Qed.

(** The run when a remote call fails: the handler of lines 226-230 runs on
    a page that differs from the initial one by the status line, the
    requests sent and the clock. *)
Lemma fetchUpcoming_failure (w : page) (e : exn) :
  remote_failure cfg env e ->
  exists w1 : page,
    fetchUpcoming D cfg env w
    = (Returned tt,
       set_grid ErrorBox
         (set_status "Error loading upcoming streams." (console_error e w1)))
    /\ localStorage w1 = localStorage w
    /\ console w1 = console w.
Proof.
  intros [Hs | res Hs Hok | res Hs Hok Hj
         | res sd Hs Hok Hj Hids Hv
         | res sd res' Hs Hok Hj Hids Hv Hok'
         | res sd res' Hs Hok Hj Hids Hv Hok' Hj'].
  1-3: exists (searching w); run_fetch; rewrite Hs; try rewrite Hok; cbn;
    try rewrite Hj; repeat split; reflexivity.
  all: exists (sent env (videosURL cfg (ids_of sd)) (searching w));
    destruct (ids_of sd) as [|i ids] eqn:E; [contradiction|];
    run_fetch; rewrite Hs, Hok; cbn; rewrite Hj, E; cbn;
    rewrite Hv; try rewrite Hok'; cbn; try rewrite Hj';
    repeat split; reflexivity.
Qed.

(** C6. When the search succeeds and yields no video identifier,
    [fetchUpcoming] returns normally; the grid shows the call to action
    that [renderGrid] gives for the empty sequence; only the search
    request was sent; nothing is logged as an error; and the storage is
    what [writeCache] makes of the empty payload: when the storage accepts
    the write, the entry under the channel's key holds the empty sequence
    and a read returns it. *)
Theorem empty_search_short_circuit (w : page) (res : Response searchData)
  (sd : searchData) :
  search_endpoint env (searchURL cfg) = Some res ->
  ok res = true -> json res = Some sd -> ids_of sd = [] ->
  exists w' : page,
    fetchUpcoming D cfg env w = (Returned tt, w')
    /\ w' = writeCache cfg env []
              (set_status "No upcoming live streams scheduled."
                 (renderGrid cfg [] (searching w)))
    /\ grid w' = call_to_action cfg
    /\ status w' = "No upcoming live streams scheduled."
    /\ fetched w' = (fetched w ++ [searchURL cfg])%list
    /\ console w' = console w
    /\ (storage_accepts env (CACHE_KEY cfg) {| ts := clock w'; data := [] |} = true ->
        localStorage w' !! CACHE_KEY cfg = Some (Json {| ts := clock w'; data := [] |})
        /\ readCache cfg w' = Some []).
Proof.
  intros Hs Hok Hj Hids.
  set (w1 := set_status "No upcoming live streams scheduled."
               (renderGrid cfg [] (searching w))).
  exists (writeCache cfg env [] w1). split.
  - now apply (fetchUpcoming_empty w res sd).
  - split; [reflexivity|].
    destruct (writeCache_rest cfg env [] w1) as (Hg & Hst & Hc & Hf & Hk).
    rewrite Hg, Hst, Hc, Hf, Hk. repeat split; try reflexivity.
    + now apply writeCache_accepted.
    + rewrite (readCache_entry cfg _ _ (writeCache_accepted cfg env [] w1 H)).
      rewrite Hk. cbn [ts data].
      replace (clock w1 - clock w1 >? CACHE_MS) with false; [easy|].
      symmetry. rewrite Z.gtb_ltb. apply Z.ltb_ge. unfold CACHE_MS. lia.
Qed.

(** C7. When a remote call fails (the search or the details request is
    rejected, answers with a status that is not a success, or has a body
    that cannot be read), [fetchUpcoming] returns normally with the error
    logged, the grid showing the error box and the status line the error
    text; the storage is the one the page had before, so a read at any
    later time returns what it would have returned without the fetch. *)
Theorem remote_failure_reported (w : page) (e : exn) :
  remote_failure cfg env e ->
  exists w' : page,
    fetchUpcoming D cfg env w = (Returned tt, w')
    /\ grid w' = ErrorBox
    /\ status w' = "Error loading upcoming streams."
    /\ console w' = (console w ++ [e])%list
    /\ localStorage w' = localStorage w
    /\ (forall t : Z, readCache cfg (at_time t w') = readCache cfg (at_time t w)).
Proof.
  intros Hfail.
  destruct (fetchUpcoming_failure w e Hfail) as (w1 & Hrun & Hl & Hc).
  eexists. split; [exact Hrun|].
  split; [reflexivity|]. split; [reflexivity|].
  split; [cbn; now rewrite Hc|].
  split; [exact Hl|].
  intros t. now apply readCache_ext.
Qed.

(** The three ways a run can go. *)
Lemma remote_cases :
  (exists e, remote_failure cfg env e)
  \/ (exists res sd,
        search_endpoint env (searchURL cfg) = Some res
        /\ ok res = true /\ json res = Some sd /\ ids_of sd = [])
  \/ (exists res sd res' vd,
        search_endpoint env (searchURL cfg) = Some res
        /\ ok res = true /\ json res = Some sd /\ ids_of sd <> []
        /\ videos_endpoint env (videosURL cfg (ids_of sd)) = Some res'
        /\ ok res' = true /\ json res' = Some vd).
Proof.
  destruct (search_endpoint env (searchURL cfg)) as [res|] eqn:Hs;
    [|left; eexists; now apply search_rejected].
  destruct (ok res) eqn:Hok;
    [|left; eexists; now apply (search_status _ _ res)].
  destruct (json res) as [sd|] eqn:Hj;
    [|left; eexists; now apply (search_body _ _ res)].
  destruct (ids_of sd) as [|i ids] eqn:Hids;
    [right; left; now exists res, sd|].
  assert (Hne : ids_of sd <> []) by now rewrite Hids.
  destruct (videos_endpoint env (videosURL cfg (ids_of sd))) as [res'|] eqn:Hv;
    [|left; eexists; now apply (videos_rejected _ _ res sd)].
  destruct (ok res') eqn:Hok';
    [|left; eexists; now apply (videos_status _ _ res sd res')].
  destruct (json res') as [vd|] eqn:Hj';
    [|left; eexists; now apply (videos_body _ _ res sd res')].
  right; right. exists res, sd, res', vd. rewrite Hids in *. easy.
Qed.

(** A run in which both calls succeed: the records are filtered and sorted
    with the clock read after the second answer, rendered, and written to
    the cache. *)
Lemma fetchUpcoming_success (w : page) (res : Response searchData)
  (sd : searchData) (res' : Response videosData) (vd : videosData) :
  search_endpoint env (searchURL cfg) = Some res ->
  ok res = true -> json res = Some sd -> ids_of sd <> [] ->
  videos_endpoint env (videosURL cfg (ids_of sd)) = Some res' ->
  ok res' = true -> json res' = Some vd ->
  let w2 := sent env (videosURL cfg (ids_of sd)) (searching w) in
  let found :=
    detailed D (clock w2) (hide_past_hours cfg) (default [] (vd_items vd)) in
  fetchUpcoming D cfg env w
  = (Returned tt,
     set_status "" (writeCache cfg env found (renderGrid cfg found w2))).
Proof.
  intros Hs Hok Hj Hids Hv Hok' Hj'. run_fetch.
  rewrite Hs, Hok. cbn. rewrite Hj.
  destruct (ids_of sd) as [|i ids]; [contradiction|].
  cbn. rewrite Hv, Hok'. cbn. rewrite Hj'. reflexivity.
Qed.

Lemma renderGrid_not_error (videos : list event) (w : page) :
  grid (renderGrid cfg videos w) <> ErrorBox.
Proof. destruct videos; discriminate. Qed.

(** The error box is shown after a failed remote call only. *)
Lemma error_box_only_on_failure (w : page) :
  grid (snd (fetchUpcoming D cfg env w)) = ErrorBox ->
  exists e, remote_failure cfg env e.
Proof.
  destruct remote_cases
    as [H | [(res & sd & Hs & Hok & Hj & Hids)
            | (res & sd & res' & vd & Hs & Hok & Hj & Hids & Hv & Hok' & Hj')]];
    [easy| |].
  - rewrite (fetchUpcoming_empty w res sd Hs Hok Hj Hids). cbn [snd].
    rewrite (proj1 (writeCache_rest cfg env [] _)). discriminate.
  - rewrite (fetchUpcoming_success w res sd res' vd) by assumption.
    cbv zeta. cbn [snd].
    set (w2 := sent env (videosURL cfg (ids_of sd)) (searching w)).
    set (found := detailed D (clock w2) (hide_past_hours cfg)
                    (default [] (vd_items vd))).
    intros H.
    change (grid (writeCache cfg env found (renderGrid cfg found w2)) = ErrorBox)
      in H.
    rewrite (proj1 (writeCache_rest cfg env found _)) in H.
    now apply renderGrid_not_error in H.
Qed.

Lemma loadFromCache_storage (w : page) :
  localStorage (snd (loadFromCache cfg w)) = localStorage w.
Proof.
  unfold loadFromCache. destruct (truthy_array _); [|reflexivity].
  cbn. unfold renderGrid. now destruct (default [] _).
Qed.

(** The whole refresh after a failed remote call: the error box stays in
    the grid (the status line is cleared when the cache had been shown) and
    the storage is untouched. *)
Lemma refresh_failure (w : page) (e : exn) :
  remote_failure cfg env e ->
  exists w' : page,
    refresh D cfg env w = (Returned tt, w')
    /\ grid w' = ErrorBox
    /\ localStorage w' = localStorage w.
Proof.
  intros Hfail. unfold refresh.
  pose proof (loadFromCache_storage w) as Hl.
  destruct (loadFromCache cfg w) as [hadCache w1]. cbn in Hl.
  destruct (fetchUpcoming_failure w1 e Hfail) as (w2 & Hrun & Hl' & _).
  unfold mbind, M_bind. rewrite Hrun.
  destruct hadCache; eexists; (split; [reflexivity|]); cbn;
    split; congruence.
Qed.

End FetchFacts.

(** *** Worked runs *)

Lemma empty_search_short_circuit_witness :
  exists w' : page,
    fetchUpcoming Iso.getTime cfg0 env_nothing page0 = (Returned tt, w')
    /\ grid w' = call_to_action cfg0
    /\ fetched w' = [searchURL cfg0]
    /\ console w' = []
    /\ readCache cfg0 w' = Some [].
Proof.
  destruct (empty_search_short_circuit Iso.getTime cfg0 env_nothing page0
              (ok_response {| sd_items := Some [] |}) {| sd_items := Some [] |}
              eq_refl eq_refl eq_refl eq_refl)
    as (w' & Hrun & _ & Hg & _ & Hf & Hc & Hst).
  exists w'. split; [exact Hrun|]. split; [exact Hg|].
  split; [exact Hf|]. split; [exact Hc|].
  exact (proj2 (Hst eq_refl)).
Defined.

Lemma env_forbidden_fails :
  remote_failure cfg0 env_forbidden (Error "YouTube API (videos) 403").
Proof.
  apply (videos_status cfg0 env_forbidden
           (ok_response
              {| sd_items := Some [ {| si_id := Some {| videoId := Some "v1" |} |} ] |})
           {| sd_items := Some [ {| si_id := Some {| videoId := Some "v1" |} |} ] |}
           {| ok := false; http_status := 403; json := None |});
    try reflexivity.
  discriminate.
Defined.

Lemma remote_failure_reported_witness :
  remote_failure cfg0 env_forbidden (Error "YouTube API (videos) 403")
  /\ exists w' : page,
       fetchUpcoming Iso.getTime cfg0 env_forbidden page_cached = (Returned tt, w')
       /\ grid w' = ErrorBox
       /\ status w' = "Error loading upcoming streams."
       /\ localStorage w' = localStorage page_cached
       /\ readCache cfg0 (at_time (new_year + 1000) w') = Some [ev_first].
Proof.
  split; [exact env_forbidden_fails|].
  destruct (remote_failure_reported Iso.getTime cfg0 env_forbidden page_cached
              _ env_forbidden_fails)
    as (w' & Hrun & Hg & Hst & _ & Hl & Hr).
  exists w'. split; [exact Hrun|]. split; [exact Hg|].
  split; [exact Hst|]. split; [exact Hl|].
  rewrite Hr. reflexivity.
Defined.

(** Two videos found, one of them without streaming details: the dated
    one comes first, both are rendered and cached. *)
Example fetch_two :
  exists w' : page,
    fetchUpcoming Iso.getTime cfg0 env_two page0 = (Returned tt, w')
    /\ grid w' = Cards [card_of (normalize item_first); card_of (normalize item_plain)]
    /\ status w' = ""
    /\ readCache cfg0 w' = Some [normalize item_first; normalize item_plain].
Proof. eexists. split; [reflexivity|]. repeat split; reflexivity. Qed.

(** Three videos found, one of which has ended: two cards, in the order of
    their scheduled starts. *)
Example fetch_three :
  exists w' : page,
    fetchUpcoming Iso.getTime cfg0 env_three page0 = (Returned tt, w')
    /\ grid w' = Cards [card_of (normalize item_first); card_of (normalize item_second)]
    /\ readCache cfg0 w' = Some [normalize item_first; normalize item_second].
Proof. eexists. split; [reflexivity|]. split; reflexivity. Qed.

(** The cached list is shown first; the refresh that fails replaces it by
    the error box, clears the status line and leaves the entry in place. *)
Example refresh_forbidden :
  exists w' : page,
    refresh Iso.getTime cfg0 env_forbidden page_cached = (Returned tt, w')
    /\ grid w' = ErrorBox /\ status w' = ""
    /\ localStorage w' = localStorage page_cached.
Proof. eexists. split; [reflexivity|]. repeat split; reflexivity. Qed.

(** * Further properties *)

(** ** [escapeHtml] *)

Lemma chars_app (a b : string) :
  list_ascii_of_string (a ++ b)
  = (list_ascii_of_string a ++ list_ascii_of_string b)%list.
Proof.
  induction a as [|c a IH]; [reflexivity|].
  change (String c a ++ b) with (String c (a ++ b)). cbn. now rewrite IH.
Qed.

(** The text [escapeHtml] returns holds no less-than sign, no greater-than
    sign, no double quote and no apostrophe. *)
Lemma escapeHtml_markup_free (str : string) (c : ascii) :
  In c (list_ascii_of_string (escapeHtml str)) -> markup_char c = false.
Proof.
  induction str as [|c0 str IH]; cbn [escapeHtml]; [intros []|].
  rewrite chars_app. intros H. apply in_app_or in H as [H|H]; [|auto].
  unfold markup_char.
  destruct (nat_of_ascii c0 =? 38)%nat eqn:E38;
    [cbn in H; intuition (subst; reflexivity)|].
  destruct (nat_of_ascii c0 =? 60)%nat eqn:E60;
    [cbn in H; intuition (subst; reflexivity)|].
  destruct (nat_of_ascii c0 =? 62)%nat eqn:E62;
    [cbn in H; intuition (subst; reflexivity)|].
  destruct (nat_of_ascii c0 =? 34)%nat eqn:E34;
    [cbn in H; intuition (subst; reflexivity)|].
  destruct (nat_of_ascii c0 =? 39)%nat eqn:E39;
    [cbn in H; intuition (subst; reflexivity)|].
  cbn in H. destruct H as [<-|[]]. now rewrite E60, E62, E34, E39.
Qed.

(** X1. Whatever the titles of the videos are, the title that a card of the
    grid shows holds no less-than sign, no greater-than sign, no double
    quote and no apostrophe: [renderGrid] passes every title through
    [escapeHtml]. *)
Theorem card_titles_markup_free (cfg : config) (videos : list event)
  (w : page) (cs : list card) (k : card) (c : ascii) :
  grid (renderGrid cfg videos w) = Cards cs ->
  In k cs -> In c (list_ascii_of_string (card_title k)) ->
  markup_char c = false.
Proof.
  intros Hg Hk Hc. destruct videos as [|v videos]; [discriminate|].
  cbn in Hg. injection Hg as <-.
  change (card_of v :: map card_of videos) with (map card_of (v :: videos)) in Hk.
  apply in_map_iff in Hk as (v' & <- & _).
  now apply escapeHtml_markup_free in Hc.
Qed.

Lemma card_titles_markup_free_witness :
  let ev := {| id := Some "v9"; title := "<b>Hi</b> & 'bye'"; desc := "";
               thumb := ""; scheduled := None; actualStart := None;
               actualEnd := None; channelTitle := "" |} in
  grid (renderGrid cfg0 [ev] page0) = Cards [card_of ev]
  /\ card_title (card_of ev) = "&lt;b&gt;Hi&lt;/b&gt; &amp; &#39;bye&#39;"
  /\ forall c, In c (list_ascii_of_string (card_title (card_of ev))) ->
               markup_char c = false.
Proof.
  intros ev. split; [reflexivity|]. split; [reflexivity|].
  intros c Hc.
  apply (card_titles_markup_free cfg0 [ev] page0 [card_of ev] (card_of ev) c);
    [reflexivity | left; reflexivity | exact Hc].
Defined.

Lemma nat_of_ascii_inj (c1 c2 : ascii) :
  nat_of_ascii c1 = nat_of_ascii c2 -> c1 = c2.
Proof.
  intros H. rewrite <- (ascii_nat_embedding c1), <- (ascii_nat_embedding c2).
  now rewrite H.
Qed.

(** X2. [escapeHtml] loses nothing: two texts with the same escaped form
    are the same text. *)
Theorem escapeHtml_inj (s1 s2 : string) :
  escapeHtml s1 = escapeHtml s2 -> s1 = s2.
Proof.
  revert s2. induction s1 as [|c1 s1 IH]; intros [|c2 s2] H.
  - reflexivity.
  - exfalso. cbn [escapeHtml] in H.
    repeat (destruct (_ =? _)%nat in H); discriminate H.
  - exfalso. cbn [escapeHtml] in H.
    repeat (destruct (_ =? _)%nat in H); discriminate H.
  - cbn [escapeHtml] in H.
    destruct (nat_of_ascii c1 =? 38)%nat eqn:A1;
    [|destruct (nat_of_ascii c1 =? 60)%nat eqn:B1;
      [|destruct (nat_of_ascii c1 =? 62)%nat eqn:C1;
        [|destruct (nat_of_ascii c1 =? 34)%nat eqn:D1;
          [|destruct (nat_of_ascii c1 =? 39)%nat eqn:E1]]]];
    (destruct (nat_of_ascii c2 =? 38)%nat eqn:A2;
     [|destruct (nat_of_ascii c2 =? 60)%nat eqn:B2;
       [|destruct (nat_of_ascii c2 =? 62)%nat eqn:C2;
         [|destruct (nat_of_ascii c2 =? 34)%nat eqn:D2;
           [|destruct (nat_of_ascii c2 =? 39)%nat eqn:E2]]]]);
    cbn in H; try discriminate H;
    try (injection H as H; apply IH in H; subst s2; f_equal;
         apply nat_of_ascii_inj;
         repeat match goal with
                | E : (_ =? _)%nat = true |- _ => apply Nat.eqb_eq in E
                end; congruence);
    try (injection H as Hc H; subst;
         repeat match goal with
                | E : (_ =? _)%nat = _ |- _ => cbn in E
                end; discriminate).
    injection H as -> H. f_equal. now apply IH.
Qed.

Lemma append_assoc (a b c : string) : (a ++ b) ++ c = a ++ (b ++ c).
Proof.
  induction a as [|x a IH]; [reflexivity|].
  change ((String x a ++ b) ++ c) with (String x ((a ++ b) ++ c)).
  change (String x a ++ (b ++ c)) with (String x (a ++ (b ++ c))).
  now rewrite IH.
Qed.

(** X3. A text without any of the five special characters is returned as
    it is, and the escaped form of a concatenation is the concatenation of
    the escaped forms. *)
Theorem escapeHtml_plain (s t : string) :
  (Forall (fun c => special_char c = false) (list_ascii_of_string s) ->
   escapeHtml s = s)
  /\ escapeHtml (s ++ t) = escapeHtml s ++ escapeHtml t.
Proof.
  split.
  - induction s as [|c s IH]; simpl; [reflexivity|].
    intros H. apply List.Forall_cons_iff in H as [Hc Hs].
    unfold special_char, markup_char in Hc.
    apply orb_false_elim in Hc as [H38 Hc].
    apply orb_false_elim in Hc as [Hc H39].
    apply orb_false_elim in Hc as [Hc H34].
    apply orb_false_elim in Hc as [H60 H62].
    rewrite H38, H60, H62, H34, H39.
    change (String c "" ++ escapeHtml s) with (String c (escapeHtml s)).
    now rewrite IH.
  - induction s as [|c s IH]; [reflexivity|].
    change (String c s ++ t) with (String c (s ++ t)).
    cbn [escapeHtml]. rewrite IH. now rewrite append_assoc.
Qed.

Lemma escapeHtml_plain_witness :
  Forall (fun c => special_char c = false) (list_ascii_of_string "Sunday 9:30")
  /\ escapeHtml "Sunday 9:30" = "Sunday 9:30".
Proof.
  assert (H : Forall (fun c => special_char c = false)
                (list_ascii_of_string "Sunday 9:30"))
    by (repeat constructor).
  split; [exact H|].
  exact (proj1 (escapeHtml_plain "Sunday 9:30" "") H).
Defined.

(** ** [parseInt] on decimal numerals *)

Lemma digit_of_pretty_N_char (d : N) :
  (d < 10)%N -> Js.digit_of (pretty_N_char d) = Some (Z.of_N d).
Proof.
  intros H.
  assert (d = 0 \/ d = 1 \/ d = 2 \/ d = 3 \/ d = 4 \/ d = 5 \/ d = 6
          \/ d = 7 \/ d = 8 \/ d = 9)%N as Hd by lia.
  repeat destruct Hd as [->|Hd]; try reflexivity. now subst.
Qed.

(** Reading the numeral of [x] continues with the digits read so far
    shifted to the left. *)
Lemma read_digits_pretty_N_go (x : N) :
  forall (s : string) (seen : bool) (acc : Z),
    (0 < x)%N ->
    exists k : Z,
      0 <= k
      /\ Js.read_digits seen acc (pretty_N_go x s)
         = Js.read_digits true (acc * 10 ^ k + Z.of_N x) s.
Proof.
  induction (N.lt_wf_0 x) as [x _ IH]. intros s seen acc Hx.
  rewrite pretty_N_go_step by assumption.
  assert (Hd : (x `mod` 10 < 10)%N) by now apply N.mod_lt.
  assert (Hx' : (x = 10 * (x `div` 10) + x `mod` 10)%N)
    by now apply N.div_mod.
  destruct (N.eq_dec (x `div` 10)%N 0%N) as [E|E].
  - rewrite E, pretty_N_go_0. cbn [Js.read_digits].
    rewrite (digit_of_pretty_N_char _ Hd). exists 1. split; [lia|].
    f_equal. lia.
  - destruct (IH (x `div` 10)%N) with
      (s := String (pretty_N_char (x `mod` 10)) s) (seen := seen) (acc := acc)
      as (k & Hk & ->).
    + apply N.div_lt; lia.
    + lia.
    + cbn [Js.read_digits]. rewrite (digit_of_pretty_N_char _ Hd).
      exists (k + 1). split; [lia|]. f_equal.
      rewrite Z.pow_add_r by lia. lia.
Qed.

(** The numeral of a positive number starts with a digit. *)
Lemma pretty_N_go_head (x : N) :
  forall s : string,
    (0 < x)%N ->
    exists (d : N) (r : string),
      (d < 10)%N /\ pretty_N_go x s = String (pretty_N_char d) r.
Proof.
  induction (N.lt_wf_0 x) as [x _ IH]. intros s Hx.
  rewrite pretty_N_go_step by assumption.
  destruct (N.eq_dec (x `div` 10)%N 0%N) as [E|E].
  - rewrite E, pretty_N_go_0. exists (x `mod` 10)%N, s.
    split; [now apply N.mod_lt | reflexivity].
  - apply IH; [apply N.div_lt; [assumption | reflexivity] | now apply N.neq_0_lt_0].
Qed.

Lemma parseInt_digit_head (d : N) (r : string) :
  (d < 10)%N ->
  Js.parseInt (String (pretty_N_char d) r)
  = match Js.read_digits false 0 (String (pretty_N_char d) r) with
    | Some m => Js.Fin (1 * m)
    | None => Js.NaN
    end.
Proof.
  intros H.
  assert (d = 0 \/ d = 1 \/ d = 2 \/ d = 3 \/ d = 4 \/ d = 5 \/ d = 6
          \/ d = 7 \/ d = 8 \/ d = 9)%N as Hd by lia.
  repeat destruct Hd as [->|Hd]; try reflexivity. now subst.
Qed.

Lemma parseInt_pretty_N_go (x : N) :
  (0 < x)%N -> Js.parseInt (pretty_N_go x "") = Js.Fin (Z.of_N x).
Proof.
  intros Hx.
  destruct (pretty_N_go_head x "" Hx) as (d & r & Hd & E).
  rewrite E, (parseInt_digit_head d r Hd), <- E.
  destruct (read_digits_pretty_N_go x "" false 0 Hx) as (k & _ & ->).
  cbn [Js.read_digits]. f_equal. lia.
Qed.

(** [parseInt] reads back the decimal numeral of every integer. *)
Lemma parseInt_pretty (z : Z) : Js.parseInt (pretty z) = Js.Fin z.
Proof.
  destruct z as [|p|p]; [reflexivity| |].
  - change (pretty (Z.pos p)) with (pretty (N.pos p)).
    unfold pretty, pretty_N. rewrite decide_False by discriminate.
    now rewrite parseInt_pretty_N_go.
  - change (pretty (Z.neg p)) with (String "-" (pretty (N.pos p))).
    unfold pretty, pretty_N. rewrite decide_False by discriminate.
    destruct (read_digits_pretty_N_go (N.pos p) "" false 0 eq_refl)
      as (k & _ & Hr).
    set (r := pretty_N_go (N.pos p) "") in *.
    change (Js.parseInt (String "-" r))
      with (match Js.read_digits false 0 r with
            | Some m => Js.Fin (-1 * m)
            | None => Js.NaN
            end).
    rewrite Hr. cbn [Js.read_digits]. f_equal; lia.
Qed.

Lemma pretty_truthy (z : Z) : Js.truthy_string (pretty z) = true.
Proof.
  destruct z as [|p|p]; [reflexivity| |reflexivity].
  change (pretty (Z.pos p)) with (pretty (N.pos p)).
  unfold pretty, pretty_N. rewrite decide_False by discriminate.
  destruct (pretty_N_go_head (N.pos p) "" eq_refl) as (d & r & _ & ->).
  reflexivity.
Qed.

(** ** Configuration *)

(** X4. When [data-max-results] is the decimal numeral of [n] and
    [data-hide-past-hours] the one of [h] (integers that a double holds
    exactly), the maximum is [n] capped at 50, the grace period is [h]
    raised to 0, and the search request carries the capped maximum as
    [maxResults], in decimal. *)
Theorem numeral_attributes (a : attributes) (cfg : config) (n h : Z) :
  Z.abs n < 2 ^ 53 -> Z.abs h < 2 ^ 53 ->
  data_max_results a = Some (pretty n) ->
  data_hide_past_hours a = Some (pretty h) ->
  configure a = Some cfg ->
  max_results cfg = Js.Fin (Z.min n 50)
  /\ hide_past_hours cfg = Js.Fin (Z.max 0 h)
  /\ In ("maxResults", pretty (Z.min n 50)) (searchParams (searchURL cfg)).
Proof.
  intros _ _ Hn Hh Hc. unfold configure in Hc.
  destruct (_ || _) in Hc; [discriminate|]. injection Hc as <-.
  cbn [max_results hide_past_hours].
  assert (Hm : MAX_RESULTS a = Js.Fin (Z.min n 50)).
  { unfold MAX_RESULTS. rewrite Hn. cbn [Js.or_else].
    rewrite pretty_truthy, parseInt_pretty. apply Math_min_Fin. }
  assert (Hp : HIDE_PAST_HOURS a = Js.Fin (Z.max 0 h)).
  { unfold HIDE_PAST_HOURS. rewrite Hh. cbn [Js.or_else].
    rewrite pretty_truthy, parseInt_pretty. apply Math_max_Fin. }
  split; [exact Hm|]. split; [exact Hp|].
  unfold searchURL. cbn [max_results]. rewrite Hm. cbn. tauto.
Qed.

Lemma numeral_attributes_witness :
  exists cfg : config,
    configure attributes_numeric = Some cfg
    /\ max_results cfg = Js.Fin 50
    /\ hide_past_hours cfg = Js.Fin 0
    /\ In ("maxResults", "50") (searchParams (searchURL cfg)).
Proof.
  eexists. split; [reflexivity|].
  apply (numeral_attributes attributes_numeric _ 80 (-3));
    [reflexivity | reflexivity | reflexivity | reflexivity | reflexivity].
Defined.

(** ** The search answer *)

Lemma filter_Boolean_In (l : list (option string)) (s : string) :
  In s (filter_Boolean l) <-> s <> "" /\ In (Some s) l.
Proof.
  induction l as [|[x|] l IH]; cbn [filter_Boolean].
  - cbn. tauto.
  - destruct x as [|c x]; cbn [Js.truthy_string].
    + rewrite IH. cbn. split; [tauto|].
      intros [Hs [H|H]]; [|tauto]. injection H as <-. contradiction.
    + cbn [In]. rewrite IH. split.
      * intros [<-|[Hs H]]; [split; [discriminate|now left]|tauto].
      * intros [Hs [H|H]]; [left; now injection H|tauto].
  - rewrite IH. cbn. split; [tauto|]. intros [Hs [H|H]]; [discriminate|tauto].
Qed.

Lemma filter_Boolean_length (l : list (option string)) :
  (length (filter_Boolean l) <= length l)%nat.
Proof.
  induction l as [|[x|] l IH]; cbn [filter_Boolean]; cbn [length]; [lia| |lia].
  destruct (Js.truthy_string x); cbn [length]; lia.
Qed.

(** X5. The identifiers asked of the details endpoint are exactly the
    non-empty [videoId]s of the search items: an item without [id], without
    [videoId] or with an empty one gives none; there are never more
    identifiers than items. *)
Theorem ids_of_spec (sd : searchData) (s : string) :
  (In s (ids_of sd) <->
   s <> "" /\ exists i sid, In i (default [] (sd_items sd))
                            /\ si_id i = Some sid /\ videoId sid = Some s)
  /\ (length (ids_of sd) <= length (default [] (sd_items sd)))%nat.
Proof.
  unfold ids_of. split.
  - rewrite filter_Boolean_In, in_map_iff. split.
    + intros [Hs (i & Hi & Hin)]. split; [assumption|].
      destruct (si_id i) as [sid|] eqn:E; [|discriminate].
      now exists i, sid.
    + intros [Hs (i & sid & Hin & Hi & Hv)]. split; [assumption|].
      exists i. now rewrite Hi.
  - etransitivity; [apply filter_Boolean_length|]. now rewrite length_map.
Qed.

(** ** More on the filter *)

Section FilterFacts.
Variable D : string -> option Z.

(** X6. With a grace period of [ms] milliseconds, a record is kept exactly
    when it has not ended and either has no scheduled start, or has
    started, or is scheduled at a time [t] with [now <= t + ms] (a
    scheduled start that is not a valid date is never too old). *)
Theorem fresh_iff (now ms : Z) (ev : event) :
  fresh D now (Js.Fin ms) ev = true <->
  Js.truthy (actualEnd ev) = false
  /\ (has_start ev = false
      \/ Js.truthy (actualStart ev) = true
      \/ forall t, scheduledStart D ev = Some t -> now <= t + ms).
Proof.
  unfold fresh, has_start, scheduledStart, getTime, Js.truthy.
  destruct (actualEnd ev) as [[|? ?]|]; cbn [Js.truthy_string];
    try (split; [discriminate | intros [? _]; discriminate]).
  all: destruct (scheduled ev) as [[|c iso]|]; cbn [Js.truthy_string];
    try (split; [intros _; split; [reflexivity|now left] | reflexivity]).
  all: destruct (actualStart ev) as [[|? ?]|]; cbn [Js.truthy_string negb andb];
    try (split; [intros _; split; [reflexivity|right; now left] | reflexivity]).
  all: destruct (D (String c iso)) as [t|]; cbn [Js.add Js.lt];
    try (split; [intros _; split; [reflexivity|right; right; discriminate]
                | reflexivity]).
  all: destruct (Z.ltb_spec (t + ms) now) as [Hlt|Hge]; split;
    try discriminate; try reflexivity.
  all: try (intros [_ [H|[H|H]]]; try discriminate;
            specialize (H t eq_refl); lia).
  all: intros _; split; [reflexivity|]; right; right;
    intros t' [= <-]; lia.
Qed.

(** X7. Time only removes records: whatever is in the output at a later
    "now" is in the output at an earlier one, for the same input and grace
    period; and a longer grace period only adds records. *)
Theorem freshSorted_shrinks (now now' : Z) (ms ms' : Z) (evs : list event)
  (ev : event) :
  now <= now' -> ms' <= ms ->
  In ev (freshSorted D now' (Js.Fin ms') evs) ->
  In ev (freshSorted D now (Js.Fin ms) evs).
Proof.
  intros Hnow Hms. rewrite !freshSorted_In. intros [Hin Hf].
  split; [assumption|]. revert Hf. unfold fresh, getTime.
  destruct (Js.truthy (actualEnd ev)); [discriminate|].
  destruct (scheduled ev) as [iso|]; [|reflexivity].
  destruct (Js.truthy_string iso); [|reflexivity].
  destruct (negb (Js.truthy (actualStart ev))); [|reflexivity].
  destruct (D iso) as [t|]; [|reflexivity]. cbn.
  destruct (Z.ltb_spec (t + ms') now'); [discriminate|].
  destruct (Z.ltb_spec (t + ms) now); [lia|reflexivity].
Qed.

(** X8. When the grace period is NaN (a [data-hide-past-hours] in which
    [parseInt] finds no digit), nothing is ever too old: the output holds
    exactly the records that have not ended. *)
Theorem grace_not_a_number (a : attributes) (now : Z)
  (items : list video_item) (ev : event) :
  Js.parseInt (Js.or_else (data_hide_past_hours a) "6") = Js.NaN ->
  HIDE_PAST_HOURS a = Js.NaN
  /\ (In ev (detailed D now (HIDE_PAST_HOURS a) items) <->
      In ev (map normalize items) /\ actualEnd ev = None).
Proof.
  intros Hp.
  assert (Hh : HIDE_PAST_HOURS a = Js.NaN) by (unfold HIDE_PAST_HOURS; now rewrite Hp).
  split; [exact Hh|]. rewrite Hh. unfold detailed.
  rewrite freshSorted_In. split.
  - intros [Hin Hf]. split; [assumption|].
    apply fresh_not_ended in Hf.
    apply in_map_iff in Hin as (v & <- & _).
    apply null_or_set_truthy; [apply normalize_normalized | assumption].
  - intros [Hin He]. split; [assumption|].
    unfold fresh. rewrite He. cbn [Js.truthy].
    destruct (scheduled ev) as [iso|]; [|reflexivity].
    destruct (Js.truthy_string iso); [|reflexivity].
    destruct (negb (Js.truthy (actualStart ev))); [|reflexivity].
    destruct (getTime D iso); reflexivity.
Qed.

(** X9. The records of [detailed] are the items that pass the filter,
    each as many times as it is in the answer: the sort loses none and
    invents none, and there are never more records than items. *)
Theorem detailed_permutation (now : Z) (hours : Js.num)
  (items : list video_item) :
  Permutation (detailed D now hours items)
    (List.filter (fresh D now (hidePastMs hours)) (map normalize items))
  /\ (length (detailed D now hours items) <= length items)%nat.
Proof.
  assert (H : Permutation (detailed D now hours items)
                (List.filter (fresh D now (hidePastMs hours)) (map normalize items))).
  { symmetry. apply sort_Permutation. }
  split; [exact H|].
  rewrite (Permutation_length H).
  etransitivity; [apply filter_length_le|]. now rewrite length_map.
Qed.

(** X10. When the scheduled starts are timestamps, the output is the only
    arrangement of the retained records that is ascending by sort key
    (the scheduled time, or infinity without one) and keeps the records of
    each key in the order of the input. *)
Theorem freshSorted_unique (now : Z) (hp : Js.num) (evs l' : list event) :
  Forall (dated D) evs ->
  StronglySorted (fun a b => Js.le (sortKey D a) (sortKey D b) = true) l' ->
  (forall k : Js.num,
      List.filter (fun ev => bool_decide (sortKey D ev = k)) l'
      = List.filter (fun ev => bool_decide (sortKey D ev = k))
          (List.filter (fresh D now hp) evs)) ->
  l' = freshSorted D now hp evs.
Proof.
  intros Hd Hs Hf. apply (sort_unique (sortKey D)); [|assumption..].
  rewrite List.Forall_forall in *. intros ev Hev.
  apply dated_ordinary, Hd. apply filter_In in Hev. tauto.
Qed.

Lemma filter_Permutation_bool {A : Type} (p : A -> bool) (l l' : list A) :
  Permutation l l' -> Permutation (List.filter p l) (List.filter p l').
Proof.
  induction 1 as [|x l l' _ IH|x y l|l l' l'' _ IH1 _ IH2]; cbn.
  - constructor.
  - destruct (p x); [now constructor | assumption].
  - destruct (p x), (p y); try reflexivity. apply perm_swap.
  - etransitivity; eassumption.
Qed.

Lemma filter_key_short {A : Type} (key : A -> Js.num) (k : Js.num)
  (l : list A) :
  List.NoDup (map key l) ->
  (length (List.filter (fun a => bool_decide (key a = k)) l) <= 1)%nat.
Proof.
  induction l as [|x l IH]; cbn; [lia|].
  intros H. apply List.NoDup_cons_iff in H as [Hx Hl].
  destruct (bool_decide (key x = k)) eqn:E; [|auto].
  apply bool_decide_eq_true in E. cbn.
  replace (List.filter (fun a => bool_decide (key a = k)) l) with (@nil A);
    [cbn; lia|].
  symmetry. destruct (List.filter _ l) as [|y r] eqn:F; [reflexivity|].
  exfalso. apply Hx.
  assert (Hy : In y (List.filter (fun a => bool_decide (key a = k)) l))
    by (rewrite F; now left).
  apply filter_In in Hy as [Hy Hk]. apply bool_decide_eq_true in Hk.
  apply in_map_iff. exists y. split; [congruence|assumption].
Qed.

Lemma Permutation_short {A : Type} (l l' : list A) :
  (length l <= 1)%nat -> Permutation l l' -> l = l'.
Proof.
  destruct l as [|x [|y l]]; cbn; intros Hl H; [| |lia].
  - symmetry. now apply Permutation_nil.
  - symmetry. now apply Permutation_length_1_inv.
Qed.

(** X11. When the scheduled starts are timestamps and no two retained
    records have the same sort key, the output does not depend on the order
    in which the records come in. *)
Theorem freshSorted_order_independent (now : Z) (hp : Js.num)
  (evs evs' : list event) :
  Permutation evs evs' ->
  Forall (dated D) evs ->
  List.NoDup (map (sortKey D) (List.filter (fresh D now hp) evs)) ->
  freshSorted D now hp evs' = freshSorted D now hp evs.
Proof.
  intros Hp Hd Hn.
  assert (Hd' : Forall (dated D) evs').
  { eapply Permutation_Forall; eassumption. }
  apply (sorted_by_key_unique (sortKey D)).
  - now apply freshSorted_sorted.
  - now apply freshSorted_sorted.
  - intros k. unfold freshSorted. rewrite !filter_sort_key.
    symmetry. apply Permutation_short.
    + now apply filter_key_short.
    + now apply filter_Permutation_bool, filter_Permutation_bool.
Qed.

End FilterFacts.

(** ** More on the cache *)

Lemma CACHE_KEY_inj (cfg cfg' : config) :
  CACHE_KEY cfg = CACHE_KEY cfg' -> CHANNEL_ID cfg = CHANNEL_ID cfg'.
Proof. unfold CACHE_KEY. cbv [String.append]. intros H. now injection H. Qed.

Lemma writeCache_other_keys (cfg : config) (env : environment)
  (P : list event) (w : page) (k : string) :
  k <> CACHE_KEY cfg ->
  localStorage (writeCache cfg env P w) !! k = localStorage w !! k.
Proof.
  intros Hk. unfold writeCache. destruct (storage_accepts _ _ _); [|reflexivity].
  cbn. now rewrite lookup_insert_ne.
Qed.

(** X12. Whatever the storage held before, a payload written at time [T]
    (the storage accepting the write) is returned by every read up to and
    including [T + CACHE_MS], also by a read whose clock is behind [T], and
    by no read after [T + CACHE_MS]. *)
Theorem cache_served_while_young (cfg : config) (env : environment)
  (P : list event) (w : page) (t : Z) :
  storage_accepts env (CACHE_KEY cfg) {| ts := clock w; data := P |} = true ->
  (t <= clock w + CACHE_MS ->
   readCache cfg (at_time t (writeCache cfg env P w)) = Some P)
  /\ (clock w + CACHE_MS < t ->
      readCache cfg (at_time t (writeCache cfg env P w)) = None).
Proof.
  intros H.
  rewrite (readCache_at_time cfg _ _ _ (writeCache_accepted cfg env P w H)).
  cbn [ts data]. rewrite Z.gtb_ltb.
  destruct (Z.ltb_spec CACHE_MS (t - clock w)); split; intros; try reflexivity; lia.
Qed.

Lemma cache_served_while_young_witness :
  readCache cfg0 (at_time (new_year + 300000)
                    (writeCache cfg0 env_nothing [ev_first] page_cached))
  = Some [ev_first]
  /\ readCache cfg0 (at_time (new_year - 86400000)
                       (writeCache cfg0 env_nothing [ev_first] page_cached))
     = Some [ev_first].
Proof.
  split.
  - apply (cache_served_while_young cfg0 env_nothing [ev_first] page_cached);
      [reflexivity | vm_compute; discriminate].
  - apply (cache_served_while_young cfg0 env_nothing [ev_first] page_cached);
      [reflexivity | vm_compute; discriminate].
Defined.

(** X13. The cache of one channel is out of reach of the widget of
    another: a write for one channel changes no read for a channel with a
    different identifier, and no other key of the storage. *)
Theorem cache_per_channel (cfg cfg' : config) (env : environment)
  (P : list event) (w : page) :
  CHANNEL_ID cfg <> CHANNEL_ID cfg' ->
  readCache cfg' (writeCache cfg env P w) = readCache cfg' w
  /\ (forall k, k <> CACHE_KEY cfg ->
                localStorage (writeCache cfg env P w) !! k = localStorage w !! k).
Proof.
  intros Hne. split.
  - unfold readCache. rewrite writeCache_other_keys.
    + now rewrite (proj2 (proj2 (proj2 (proj2 (writeCache_rest cfg env P w))))).
    + intros E. apply Hne. symmetry. now apply CACHE_KEY_inj.
  - intros k Hk. now apply writeCache_other_keys.
Qed.

Lemma cache_per_channel_witness :
  CHANNEL_ID cfg0 <> CHANNEL_ID cfg_other
  /\ readCache cfg_other (writeCache cfg0 env_nothing [ev_first] page0)
     = readCache cfg_other page0.
Proof.
  assert (H : CHANNEL_ID cfg0 <> CHANNEL_ID cfg_other) by discriminate.
  split; [exact H|].
  exact (proj1 (cache_per_channel cfg0 cfg_other env_nothing [ev_first] page0 H)).
Defined.

(** ** More on the fetch routine *)

Section FetchMore.
Variable D : string -> option Z.
Variable cfg : config.
Variable env : environment.

Local Abbreviation searching w :=
  (sent env (searchURL cfg) (set_status "Loading upcoming streams…" w)).

(** The requests sent in a run in which a remote call fails. *)
Lemma fetchUpcoming_failure_sent (w : page) (e : exn) :
  remote_failure cfg env e ->
  exists rest : list URL,
    fetched (snd (fetchUpcoming D cfg env w))
    = (fetched w ++ searchURL cfg :: rest)%list
    /\ (rest = []
        \/ exists res sd,
             search_endpoint env (searchURL cfg) = Some res
             /\ ok res = true /\ json res = Some sd /\ ids_of sd <> []
             /\ rest = [videosURL cfg (ids_of sd)]).
Proof.
  intros [Hs | res Hs Hok | res Hs Hok Hj
         | res sd Hs Hok Hj Hids Hv
         | res sd res' Hs Hok Hj Hids Hv Hok'
         | res sd res' Hs Hok Hj Hids Hv Hok' Hj'].
  1-3: exists []; split; [|now left]; run_fetch; rewrite Hs; try rewrite Hok;
    cbn; try rewrite Hj; reflexivity.
  all: exists [videosURL cfg (ids_of sd)];
    (split; [|right; now exists res, sd]);
    destruct (ids_of sd) as [|i ids] eqn:E; try contradiction;
    run_fetch; rewrite Hs, Hok; cbn; rewrite Hj, E; cbn;
    rewrite Hv; try rewrite Hok'; cbn; try rewrite Hj'; cbn;
    rewrite <- app_assoc; reflexivity.
Qed.

(** X14. [fetchUpcoming] never throws: whatever the endpoints answer, it
    returns normally. *)
Theorem fetchUpcoming_returns (w : page) :
  fst (fetchUpcoming D cfg env w) = Returned tt.
Proof.
  destruct (remote_cases cfg env)
    as [[e He] | [(res & sd & Hs & Hok & Hj & Hids)
                 | (res & sd & res' & vd & Hs & Hok & Hj & Hids & Hv & Hok' & Hj')]].
  - destruct (fetchUpcoming_failure D cfg env w e He) as (w1 & -> & _).
    reflexivity.
  - now rewrite (fetchUpcoming_empty D cfg env w res sd).
  - now rewrite (fetchUpcoming_success D cfg env w res sd res' vd).
Qed.

(** X15. A run sends the search request first and at most one more: the
    details request, sent only when the search succeeded and gave
    identifiers, asks for exactly those identifiers. *)
Theorem fetchUpcoming_requests (w : page) :
  exists rest : list URL,
    fetched (snd (fetchUpcoming D cfg env w))
    = (fetched w ++ searchURL cfg :: rest)%list
    /\ (rest = []
        \/ exists res sd,
             search_endpoint env (searchURL cfg) = Some res
             /\ ok res = true /\ json res = Some sd /\ ids_of sd <> []
             /\ rest = [videosURL cfg (ids_of sd)]).
Proof.
  destruct (remote_cases cfg env)
    as [[e He] | [(res & sd & Hs & Hok & Hj & Hids)
                 | (res & sd & res' & vd & Hs & Hok & Hj & Hids & Hv & Hok' & Hj')]].
  - exact (fetchUpcoming_failure_sent w e He).
  - exists []. split; [|now left].
    rewrite (fetchUpcoming_empty D cfg env w res sd) by assumption.
    cbn [snd]. now rewrite (proj1 (proj2 (proj2 (proj2 (writeCache_rest cfg env [] _))))).
  - exists [videosURL cfg (ids_of sd)]. split; [|right; now exists res, sd].
    rewrite (fetchUpcoming_success D cfg env w res sd res' vd) by assumption.
    cbv zeta. cbn [snd].
    change (fetched (set_status "" ?x)) with (fetched x).
    rewrite (proj1 (proj2 (proj2 (proj2 (writeCache_rest cfg env _ _))))).
    unfold renderGrid. destruct (detailed _ _ _ _); cbn; now rewrite <- app_assoc.
Qed.

(** X16. A run touches one key of the storage at most, the channel's: every
    other key holds after the run what it held before. *)
Theorem fetchUpcoming_other_keys (w : page) (k : string) :
  k <> CACHE_KEY cfg ->
  localStorage (snd (fetchUpcoming D cfg env w)) !! k = localStorage w !! k.
Proof.
  intros Hk.
  destruct (remote_cases cfg env)
    as [[e He] | [(res & sd & Hs & Hok & Hj & Hids)
                 | (res & sd & res' & vd & Hs & Hok & Hj & Hids & Hv & Hok' & Hj')]].
  - destruct (fetchUpcoming_failure D cfg env w e He) as (w1 & -> & Hl & _).
    cbn. now rewrite Hl.
  - rewrite (fetchUpcoming_empty D cfg env w res sd) by assumption.
    cbn [snd]. rewrite writeCache_other_keys by assumption. reflexivity.
  - rewrite (fetchUpcoming_success D cfg env w res sd res' vd) by assumption.
    cbv zeta. cbn [snd].
    change (localStorage (set_status "" ?x)) with (localStorage x).
    rewrite writeCache_other_keys by assumption.
    unfold renderGrid. now destruct (detailed _ _ _ _).
Qed.

End FetchMore.

Lemma cache_served_at_or_before (cfg : config) (env : environment)
  (P : list event) (w : page) (t : Z) :
  storage_accepts env (CACHE_KEY cfg) {| ts := clock w; data := P |} = true ->
  t <= clock w + CACHE_MS ->
  readCache cfg (at_time t (writeCache cfg env P w)) = Some P.
Proof.
  intros H Ht.
  rewrite (readCache_at_time cfg _ _ _ (writeCache_accepted cfg env P w H)).
  cbn [ts data]. rewrite Z.gtb_ltb.
  destruct (Z.ltb_spec CACHE_MS (t - clock w)); [lia | reflexivity].
Qed.

(** ** The cache and the fetch routine together *)

Section Reload.
Variable D : string -> option Z.
Variable cfg : config.
Variable env : environment.

Lemma grid_renderGrid (P : list event) (w w0 : page) :
  grid (renderGrid cfg P w) = grid (renderGrid cfg P w0).
Proof. now destruct P. Qed.

Lemma renderGrid_rest (P : list event) (w : page) :
  localStorage (renderGrid cfg P w) = localStorage w
  /\ clock (renderGrid cfg P w) = clock w.
Proof. now destruct P. Qed.

(** A payload that was rendered and written is what [loadFromCache]
    renders on a page that starts with the same storage. *)
Lemma loadFromCache_after_write (P : list event) (w : page) (t : Z) :
  storage_accepts env (CACHE_KEY cfg) {| ts := clock w; data := P |} = true ->
  t <= clock w + CACHE_MS ->
  fst (loadFromCache cfg (at_time t (shell (writeCache cfg env P w)))) = true
  /\ grid (snd (loadFromCache cfg (at_time t (shell (writeCache cfg env P w)))))
     = grid (renderGrid cfg P w).
Proof.
  intros Ha Ht.
  assert (Hr : readCache cfg (at_time t (shell (writeCache cfg env P w))) = Some P).
  { rewrite (readCache_ext cfg (at_time t (writeCache cfg env P w)))
      by reflexivity.
    now apply (cache_served_at_or_before cfg env P w t). }
  unfold loadFromCache. rewrite Hr. cbn [truthy_array fst snd default].
  split; [reflexivity|]. cbn. apply grid_renderGrid.
Qed.

(** X17. After a run that did not fail, on a storage that accepts writes,
    loading the page again within [CACHE_MS] shows from the cache, before
    any request, the grid that the run left: the same cards, or the call to
    action. *)
Theorem reload_shows_the_same (w : page) (t : Z) :
  storage_unbounded env ->
  grid (snd (fetchUpcoming D cfg env w)) <> ErrorBox ->
  t <= clock (snd (fetchUpcoming D cfg env w)) + CACHE_MS ->
  fst (loadFromCache cfg (at_time t (shell (snd (fetchUpcoming D cfg env w)))))
  = true
  /\ grid (snd (loadFromCache cfg
                  (at_time t (shell (snd (fetchUpcoming D cfg env w))))))
     = grid (snd (fetchUpcoming D cfg env w)).
Proof.
  intros Hacc.
  destruct (remote_cases cfg env)
    as [[e He] | [(res & sd & Hs & Hok & Hj & Hids)
                 | (res & sd & res' & vd & Hs & Hok & Hj & Hids & Hv & Hok' & Hj')]].
  - destruct (fetchUpcoming_failure D cfg env w e He) as (w1 & -> & _).
    intros H. now contradiction H.
  - rewrite (fetchUpcoming_empty D cfg env w res sd) by assumption.
    cbn [snd]. intros _ Ht.
    set (w1 := set_status "No upcoming live streams scheduled."
                 (renderGrid cfg [] _)) in *.
    rewrite (proj2 (proj2 (proj2 (proj2 (writeCache_rest cfg env [] w1))))) in Ht.
    rewrite (proj1 (writeCache_rest cfg env [] w1)).
    apply (loadFromCache_after_write [] w1 t); [apply Hacc | exact Ht].
  - rewrite (fetchUpcoming_success D cfg env w res sd res' vd) by assumption.
    cbv zeta. cbn [snd]. intros _.
    set (w2 := sent env (videosURL cfg (ids_of sd)) _).
    set (found := detailed D (clock w2) (hide_past_hours cfg)
                    (default [] (vd_items vd))).
    change (clock (set_status "" ?x)) with (clock x).
    change (grid (set_status "" ?x)) with (grid x).
    change (shell (set_status "" ?x)) with (shell x).
    rewrite (proj2 (proj2 (proj2 (proj2 (writeCache_rest cfg env found _))))).
    rewrite (proj1 (writeCache_rest cfg env found _)).
    intros Ht.
    destruct (loadFromCache_after_write found (renderGrid cfg found w2) t)
      as [H1 H2]; [apply Hacc | exact Ht |].
    split; [exact H1|]. rewrite H2. apply grid_renderGrid.
Qed.

(** X18. A run replaces whatever the page showed: the grid and the status
    line it leaves depend on the answers and on the clock, not on the grid,
    the status line, the storage or the console that the page had before
    (a list shown from the cache, for one). *)
Theorem fetchUpcoming_replaces_grid (w w0 : page) :
  clock w0 = clock w ->
  grid (snd (fetchUpcoming D cfg env w0))
  = grid (snd (fetchUpcoming D cfg env w))
  /\ status (snd (fetchUpcoming D cfg env w0))
     = status (snd (fetchUpcoming D cfg env w)).
Proof.
  intros Hc.
  destruct (remote_cases cfg env)
    as [[e He] | [(res & sd & Hs & Hok & Hj & Hids)
                 | (res & sd & res' & vd & Hs & Hok & Hj & Hids & Hv & Hok' & Hj')]].
  - destruct (fetchUpcoming_failure D cfg env w e He) as (w1 & -> & _).
    destruct (fetchUpcoming_failure D cfg env w0 e He) as (w2 & -> & _).
    split; reflexivity.
  - rewrite !(fetchUpcoming_empty D cfg env _ res sd) by assumption.
    cbn [fst snd].
    rewrite !(proj1 (writeCache_rest cfg env [] _)).
    rewrite !(proj1 (proj2 (writeCache_rest cfg env [] _))).
    split; reflexivity.
  - rewrite !(fetchUpcoming_success D cfg env _ res sd res' vd) by assumption.
    cbv zeta. cbn [fst snd]. split; [|reflexivity].
    change (grid (set_status "" ?x)) with (grid x).
    rewrite !(proj1 (writeCache_rest cfg env _ _)).
    cbn [clock sent set_status]. rewrite Hc. apply grid_renderGrid.
Qed.

End Reload.

(** ** Starting the widget *)

Lemma truthy_Some (v : option string) :
  Js.truthy v = true -> exists s, v = Some s /\ s <> "".
Proof.
  destruct v as [[|c s]|]; cbn; try discriminate.
  intros _. now exists (String c s).
Qed.

(** X19. The widget starts exactly when the key and the channel identifier
    are both present and not empty; it then works with these two values as
    they are written, and its cache key is [yt_upcoming_] followed by the
    channel identifier.  Otherwise nothing runs: no request, no read of the
    storage. *)
Theorem configure_spec (a : attributes) :
  (configure a = None <->
   Js.truthy (data_api_key a) = false \/ Js.truthy (data_channel_id a) = false)
  /\ (forall cfg, configure a = Some cfg ->
        data_api_key a = Some (API_KEY cfg) /\ API_KEY cfg <> ""
        /\ data_channel_id a = Some (CHANNEL_ID cfg) /\ CHANNEL_ID cfg <> ""
        /\ CACHE_KEY cfg = "yt_upcoming_" ++ CHANNEL_ID cfg)
  /\ (forall D env w, widget D env a w = None <-> configure a = None).
Proof.
  unfold widget, configure.
  destruct (Js.truthy (data_api_key a)) eqn:Hk;
    destruct (Js.truthy (data_channel_id a)) eqn:Hc; cbn [negb orb].
  2-4: split; [split; [tauto|reflexivity]|];
    (split; [discriminate|]); intros; split; reflexivity.
  apply truthy_Some in Hk as (k & Hk & Hk').
  apply truthy_Some in Hc as (c & Hc & Hc').
  split; [split; [discriminate|intros [|]; discriminate]|].
  split; [|intros; split; discriminate].
  intros cfg [= <-]. rewrite Hk, Hc. cbn. auto.
Qed.

(** ** The grid *)

(** X20. [renderGrid] shows the call to action exactly when there is no
    video; otherwise it shows one card per video, in the order of the
    videos, each opening its own video; nothing else on the page changes. *)
Theorem renderGrid_cards (cfg : config) (videos : list event) (w : page) :
  (grid (renderGrid cfg videos w) = call_to_action cfg <-> videos = [])
  /\ (videos <> [] ->
      exists cs, grid (renderGrid cfg videos w) = Cards cs
                 /\ length cs = length videos
                 /\ map card_video cs = map id videos
                 /\ map card_time cs = map (fun v => Js.or_null (scheduled v)) videos)
  /\ localStorage (renderGrid cfg videos w) = localStorage w
  /\ status (renderGrid cfg videos w) = status w
  /\ fetched (renderGrid cfg videos w) = fetched w.
Proof.
  destruct videos as [|v videos].
  - split; [split; reflexivity|]. split; [intros H; now contradiction H|].
    repeat split.
  - split; [split; discriminate|]. split; [|repeat split].
    intros _. exists (map card_of (v :: videos)).
    split; [reflexivity|]. split; [apply length_map|].
    split; rewrite map_map; reflexivity.
Qed.

(** ** The thumbnail *)

(** X21. The thumbnail of the second script is never empty: it is the URL
    that [thumbUrl] finds whenever that one is not empty, and otherwise the
    still of the video on i.ytimg.com. *)
Theorem bestThumb_spec (item : video_item) :
  bestThumb item <> ""
  /\ (thumbUrl item <> "" -> bestThumb item = thumbUrl item)
  /\ (thumbUrl item = "" ->
      bestThumb item
      = "https://i.ytimg.com/vi/" ++ interpolate (vi_id item) ++ "/hqdefault.jpg").
Proof.
  unfold bestThumb, thumbUrl.
  set (pick := match match vi_snippet item with
                     | Some sn => sn_thumbnails sn
                     | None => None
                     end with
               | Some t => _
               | None => None
               end).
  destruct (match pick with Some th => url th | None => None end)
    as [[|c u]|]; cbn [Js.or_else Js.truthy_string].
  - split; [discriminate|]. split; [intros H; now contradiction H|reflexivity].
  - split; [discriminate|]. split; [reflexivity|discriminate].
  - split; [discriminate|]. split; [intros H; now contradiction H|reflexivity].
Qed.

(** ** Normalisation *)

(** X22. In the record built for an item, empty strings count as missing:
    the title is never empty ([Untitled] takes the place of a missing or
    empty one, any other title is kept), and each of the three time fields
    is null or a non-empty string; the identifier is the item's. *)
Theorem normalize_defaults (v : video_item) :
  title (normalize v) <> ""
  /\ (forall sn t, vi_snippet v = Some sn -> sn_title sn = Some t -> t <> "" ->
                   title (normalize v) = t)
  /\ (Js.truthy (snippet_field sn_title v) = false ->
      title (normalize v) = "Untitled")
  /\ normalized (normalize v)
  /\ id (normalize v) = vi_id v.
Proof.
  split; [|split; [|split; [|split]]].
  - unfold normalize, Js.or_else. cbn [title].
    destruct (snippet_field sn_title v) as [[|c s]|]; discriminate.
  - intros sn t Hsn Ht Hne. unfold normalize, snippet_field. cbn [title].
    rewrite Hsn, Ht. destruct t; [contradiction|reflexivity].
  - unfold normalize, Js.or_else, Js.truthy. cbn [title].
    destruct (snippet_field sn_title v) as [[|c s]|]; try reflexivity.
    discriminate.
  - repeat split; apply or_null_null_or_set.
  - reflexivity.
Qed.

(** ** Opening and closing the player *)

Lemma hidden_again (C : gset string) :
  ("hidden" ∈ C) -> ({["hidden"]} ∪ (C ∖ {["hidden"]})) = C.
Proof.
  intros H. apply set_eq. intros x.
  rewrite elem_of_union, elem_of_difference, elem_of_singleton.
  destruct (decide (x = "hidden")) as [->|]; tauto.
Qed.

(** X23. On a page that has the modal and the player, in a mode other than
    [newtab], a click on a card loads the video's embed address with
    autoplay into the player, shows the modal and opens no window; closing
    then empties the player and hides the modal: if the modal was closed
    before, the page is back as it was. *)
Theorem open_then_close (open_in : string) (videoId : option string)
  (d : document) (modal : modal_element) (player : player_element) :
  ytModal d = Some modal -> ytPlayer d = Some player ->
  open_in <> "newtab" ->
  (exists modal',
      ytModal (openVideo open_in videoId d) = Some modal'
      /\ ("hidden" ∉ classList modal')
      /\ aria_hidden modal' = Some "false"
      /\ ytPlayer (openVideo open_in videoId d)
         = Some {| src := Some ("https://www.youtube.com/embed/"
                                ++ interpolate videoId ++ "?autoplay=1") |}
      /\ opened (openVideo open_in videoId d) = opened d)
  /\ ("hidden" ∈ classList modal -> aria_hidden modal = Some "true" ->
      src player = Some "" ->
      closeModal (openVideo open_in videoId d) = d).
Proof.
  intros Hm Hp Hmode.
  assert (E : String.eqb open_in "newtab" = false)
    by now apply String.eqb_neq.
  unfold openVideo. rewrite Hm, Hp, E. split.
  - eexists. split; [reflexivity|]. cbn. repeat split.
    intros H. apply elem_of_difference in H as [_ H].
    apply H. now apply elem_of_singleton.
  - intros Hh Ha Hs. unfold closeModal. cbn.
    rewrite (hidden_again _ Hh).
    destruct d as [m p o], modal as [C a c], player as [s].
    cbn in *. now subst.
Qed.

Lemma open_then_close_witness :
  closeModal (openVideo "modal" (Some "v1") document0) = document0
  /\ ytPlayer (openVideo "modal" (Some "v1") document0)
     = Some {| src := Some "https://www.youtube.com/embed/v1?autoplay=1" |}.
Proof.
  destruct (open_then_close "modal" (Some "v1") document0 _ _ eq_refl eq_refl)
    as [(m & _ & _ & _ & Hp & _) Hc]; [discriminate|].
  split; [|exact Hp].
  apply Hc; [|reflexivity|reflexivity].
  apply elem_of_union. right. now apply elem_of_singleton.
Defined.



Lemma closeModal_settled (d : document) : settled_modal (closeModal d).
Proof.
  unfold closeModal, settled_modal.
  destruct (ytModal d) as [m|] eqn:Hm; [|intros ? ? H; congruence].
  destruct (ytPlayer d) as [p|] eqn:Hp; [|intros ? ? _ H; congruence].
  cbn. intros modal player [= <-] [= <-]. cbn.
  rewrite bool_decide_eq_true_2; [easy|].
  apply elem_of_union. left. now apply elem_of_singleton.
Qed.

Lemma openVideo_settled (open_in : string) (videoId : option string)
  (d : document) :
  settled_modal d -> settled_modal (openVideo open_in videoId d).
Proof.
  unfold openVideo, settled_modal. intros H.
  destruct (ytModal d) as [m|] eqn:Hm; [|cbn; intros ? ? ?; discriminate].
  destruct (ytPlayer d) as [p|] eqn:Hp; [|cbn; intros ? ? _ ?; discriminate].
  specialize (H m p eq_refl eq_refl).
  destruct (String.eqb open_in "newtab");
    cbn; intros modal player [= <-] [= <-]; [exact H|].
  cbn. rewrite bool_decide_eq_false_2; [reflexivity|].
  intros E. apply elem_of_difference in E as [_ E].
  apply E. now apply elem_of_singleton.
Qed.

Lemma dispatch_settled (open_in : string) (d : document) (e : ui_event) :
  settled_modal d -> settled_modal (dispatch open_in d e).
Proof.
  intros H. destruct e as [| on_modal | key | videoId]; cbn [dispatch].
  - destruct (ytModal d) as [m|]; [|assumption].
    destruct (has_close m); [apply closeModal_settled | assumption].
  - destruct (ytModal d) as [m|]; [|assumption].
    destruct on_modal; [apply closeModal_settled | assumption].
  - destruct (ytModal d) as [m|]; [|assumption].
    destruct (_ && _); [apply closeModal_settled | assumption].
  - now apply openVideo_settled.
Qed.

(** X25. Whatever the user does, in whatever order, the modal and the
    player stay in step: a hidden modal is marked [aria-hidden="true"] and
    its player has an empty [src] (no video goes on playing behind a closed
    modal); a visible modal is marked [aria-hidden="false"]. *)
Theorem modal_stays_settled (open_in : string) (d : document)
  (events : list ui_event) :
  settled_modal d ->
  settled_modal (fold_left (dispatch open_in) events d).
Proof.
  revert d. induction events as [|e events IH]; intros d H; [exact H|].
  cbn [fold_left]. apply IH. now apply dispatch_settled.
Qed.

Lemma document0_settled : settled_modal document0.
Proof.
  intros modal player [= <-] [= <-]. cbn.
  rewrite bool_decide_eq_true_2; [easy|].
  apply elem_of_union. right. now apply elem_of_singleton.
Defined.

Lemma modal_stays_settled_witness :
  settled_modal document0
  /\ settled_modal
       (fold_left (dispatch "modal")
          [CardClick (Some "v1"); KeyDown "a"; ModalClick false;
           KeyDown "Escape"; CardClick (Some "v2"); CloseClick]
          document0).
Proof.
  split; [exact document0_settled|].
  exact (modal_stays_settled "modal" document0 _ document0_settled).
Defined.

(** A key other than Escape, a click inside the modal that is not on
    the modal element itself, and the Escape key while the modal is hidden
    change nothing; the close button, a click on the modal element itself
    and the Escape key while the modal is visible do what [closeModal]
    does. *)
Lemma dispatch_closes (open_in : string) (d : document)
  (modal : modal_element) :
  ytModal d = Some modal ->
  (forall key, key <> "Escape" -> dispatch open_in d (KeyDown key) = d)
  /\ dispatch open_in d (ModalClick false) = d
  /\ ("hidden" ∈ classList modal -> dispatch open_in d (KeyDown "Escape") = d)
  /\ ("hidden" ∉ classList modal ->
      dispatch open_in d (KeyDown "Escape") = closeModal d)
  /\ dispatch open_in d (ModalClick true) = closeModal d
  /\ (has_close modal = true -> dispatch open_in d CloseClick = closeModal d).
Proof.
  intros Hm. cbn [dispatch]. rewrite Hm.
  split; [|split; [|split; [|split; [|split]]]].
  - intros key Hk. apply String.eqb_neq in Hk. now rewrite Hk.
  - reflexivity.
  - intros Hh. now rewrite bool_decide_eq_true_2, andb_false_r.
  - intros Hh. now rewrite bool_decide_eq_false_2.
  - reflexivity.
  - now intros ->.
Qed.

(** ** Worked inputs for the further properties *)

Lemma escapeHtml_inj_witness :
  escapeHtml "a<b" = "a&lt;b" /\ "a<b" = "a<b".
Proof.
  split; [reflexivity|].
  exact (escapeHtml_inj "a<b" "a<b" eq_refl).
Defined.

Lemma freshSorted_shrinks_witness :
  In ev_first (freshSorted Iso.getTime (new_year + 16 * hour) (Js.Fin (6 * hour)) feed)
  /\ In ev_first (freshSorted Iso.getTime new_year (Js.Fin (8 * hour)) feed)
  /\ ~ In ev_first
         (freshSorted Iso.getTime (new_year + 17 * hour) (Js.Fin (6 * hour)) feed).
Proof.
  assert (H : In ev_first
                (freshSorted Iso.getTime (new_year + 16 * hour) (Js.Fin (6 * hour)) feed))
    by (vm_compute; tauto).
  split; [exact H|]. split.
  - apply (freshSorted_shrinks Iso.getTime new_year (new_year + 16 * hour)
             (8 * hour) (6 * hour) feed ev_first);
      [vm_compute; discriminate | vm_compute; discriminate | exact H].
  - vm_compute. intros [E|[E|[E|[]]]]; discriminate E.
Defined.

Lemma grace_not_a_number_witness :
  HIDE_PAST_HOURS attributes_words = Js.NaN
  /\ In (normalize item_first)
       (detailed Iso.getTime (new_year + 1000 * hour)
          (HIDE_PAST_HOURS attributes_words) [item_ended; item_first]).
Proof.
  destruct (grace_not_a_number Iso.getTime attributes_words
              (new_year + 1000 * hour) [item_ended; item_first]
              (normalize item_first) eq_refl)
    as [H1 H2].
  split; [exact H1|]. apply H2.
  split; [right; left; reflexivity | reflexivity].
Defined.

Lemma feed_distinct_dated : Forall (dated Iso.getTime) feed_distinct.
Proof.
  repeat constructor; intros H; try discriminate H; vm_compute; eauto.
Defined.

Lemma freshSorted_unique_witness :
  [ev_first; ev_second; ev_tba]
  = freshSorted Iso.getTime new_year (hidePastMs (Js.Fin 6)) feed_distinct.
Proof.
  apply (freshSorted_unique Iso.getTime new_year (hidePastMs (Js.Fin 6))
           feed_distinct [ev_first; ev_second; ev_tba] feed_distinct_dated).
  - repeat constructor.
  - intros k.
    change (List.filter (fresh Iso.getTime new_year (hidePastMs (Js.Fin 6)))
              feed_distinct)
      with [ev_second; ev_tba; ev_first].
    cbn [List.filter].
    change (sortKey Iso.getTime ev_first) with (Js.Fin 1735725600000).
    change (sortKey Iso.getTime ev_second) with (Js.Fin 1735812000000).
    change (sortKey Iso.getTime ev_tba) with Js.PInf.
    destruct (decide (Js.Fin 1735725600000 = k)) as [<-|H1];
      [reflexivity|rewrite (bool_decide_eq_false_2 _ H1)].
    destruct (decide (Js.Fin 1735812000000 = k)) as [<-|H2];
      [reflexivity|rewrite (bool_decide_eq_false_2 _ H2)].
    reflexivity.
Defined.

Lemma freshSorted_order_independent_witness :
  Permutation feed_distinct (rev feed_distinct)
  /\ freshSorted Iso.getTime new_year (hidePastMs (Js.Fin 6)) (rev feed_distinct)
     = freshSorted Iso.getTime new_year (hidePastMs (Js.Fin 6)) feed_distinct.
Proof.
  assert (Hp : Permutation feed_distinct (rev feed_distinct))
    by apply Permutation_rev.
  split; [exact Hp|].
  apply (freshSorted_order_independent Iso.getTime new_year
           (hidePastMs (Js.Fin 6)) feed_distinct (rev feed_distinct) Hp
           feed_distinct_dated).
  change (List.filter (fresh Iso.getTime new_year (hidePastMs (Js.Fin 6)))
            feed_distinct)
    with [ev_second; ev_tba; ev_first].
  change (map (sortKey Iso.getTime) [ev_second; ev_tba; ev_first])
    with [Js.Fin 1735812000000; Js.PInf; Js.Fin 1735725600000].
  repeat constructor; cbn; intuition discriminate.
Defined.

Lemma fetchUpcoming_other_keys_witness :
  "theme" <> CACHE_KEY cfg0
  /\ localStorage (snd (fetchUpcoming Iso.getTime cfg0 env_two page_cached)) !! "theme"
     = localStorage page_cached !! "theme".
Proof.
  assert (H : "theme" <> CACHE_KEY cfg0) by discriminate.
  split; [exact H|].
  exact (fetchUpcoming_other_keys Iso.getTime cfg0 env_two page_cached "theme" H).
Defined.

Lemma env_two_unbounded : storage_unbounded env_two.
Proof. intros k e. reflexivity. Defined.

Lemma reload_shows_the_same_witness :
  let w' := snd (fetchUpcoming Iso.getTime cfg0 env_two page0) in
  grid w' = Cards [card_of (normalize item_first); card_of (normalize item_plain)]
  /\ grid (snd (loadFromCache cfg0 (at_time (clock w' + 240000) (shell w'))))
     = grid w'.
Proof.
  intros w'. split; [reflexivity|].
  apply (reload_shows_the_same Iso.getTime cfg0 env_two page0
           (clock w' + 240000) env_two_unbounded).
  - vm_compute. discriminate.
  - vm_compute. discriminate.
Defined.

Lemma fetchUpcoming_replaces_grid_witness :
  clock page_cached = clock page0
  /\ grid (snd (fetchUpcoming Iso.getTime cfg0 env_two page_cached))
     = Cards [card_of (normalize item_first); card_of (normalize item_plain)]
  /\ status (snd (fetchUpcoming Iso.getTime cfg0 env_two page_cached))
     = status (snd (fetchUpcoming Iso.getTime cfg0 env_two page0)).
Proof.
  split; [reflexivity|].
  destruct (fetchUpcoming_replaces_grid Iso.getTime cfg0 env_two
              page0 page_cached eq_refl) as [Hg Hs].
  split; [|exact Hs].
  etransitivity; [exact Hg|]. reflexivity.
Defined.

Lemma dispatch_closes_witness :
  dispatch "modal" (openVideo "modal" (Some "v1") document0) (KeyDown "Escape")
  = closeModal (openVideo "modal" (Some "v1") document0)
  /\ dispatch "modal" document0 (KeyDown "Escape") = document0
  /\ dispatch "modal" document0 (KeyDown "Enter") = document0.
Proof.
  destruct (dispatch_closes "modal" document0 _ eq_refl) as (H1 & _ & H3 & _).
  destruct (dispatch_closes "modal" (openVideo "modal" (Some "v1") document0)
              _ eq_refl) as (_ & _ & _ & H4 & _).
  split; [|split].
  - apply H4. cbn. intros E. apply elem_of_difference in E as [_ E].
    apply E. now apply elem_of_singleton.
  - apply H3. apply elem_of_union. right. now apply elem_of_singleton.
  - apply H1. discriminate.
Defined.

(** ** Two more facts *)

(** X26. After a run the grid shows the error box exactly when a remote
    call failed: when the search or the details request was rejected,
    answered with a status that is not a success, or had a body that could
    not be read. *)
Theorem error_box_iff_failure (D : string -> option Z) (cfg : config)
  (env : environment) (w : page) :
  grid (snd (fetchUpcoming D cfg env w)) = ErrorBox
  <-> exists e, remote_failure cfg env e.
Proof.
  split; [apply error_box_only_on_failure|].
  intros [e He].
  destruct (fetchUpcoming_failure D cfg env w e He) as (w1 & -> & _).
  reflexivity.
Qed.

(** X27. Whatever [data-hide-past-hours] holds, the grace period is NaN or a
    number that is not negative; it is 6 when the attribute is absent or
    empty, and NaN only when [parseInt] finds no digit to read. *)
Theorem grace_period_bounds (a : attributes) :
  (HIDE_PAST_HOURS a = Js.NaN \/ exists n, HIDE_PAST_HOURS a = Js.Fin n /\ 0 <= n)
  /\ (Js.truthy (data_hide_past_hours a) = false -> HIDE_PAST_HOURS a = Js.Fin 6)
  /\ (HIDE_PAST_HOURS a = Js.NaN <->
      Js.parseInt (Js.or_else (data_hide_past_hours a) "6") = Js.NaN).
Proof.
  split; [apply HIDE_PAST_HOURS_cases|].
  split; [apply HIDE_PAST_HOURS_default|].
  unfold HIDE_PAST_HOURS.
  destruct (parseInt_cases (Js.or_else (data_hide_past_hours a) "6"))
    as [->|[n ->]]; [easy|].
  rewrite Math_max_Fin. split; discriminate.
Qed.
